(** * Verification of the syllabus enrichment pipeline

    A shallow embedding of [syllabus_processor.py]: the retrying client
    [query_gemini], the description and video paths of one topic
    ([get_topic_description], [get_videos], [process_topic]), the topic
    parser of [process_all] and the fan-out through [asyncio.gather].

    Python values are embedded as follows.
    - [str] is [string]; every [ascii] stands for one code point
      U+0000..U+00FF.
    - what [response.json()] yields is a [json] value; a JSON object is the
      list of the items of the parsed [dict], keys pairwise distinct.
    - a coroutine is a computation in the monad [M]: it threads the log of
      the effects performed so far and ends in a value or in a raised
      exception.
    - the remote collaborators are scripts: what the generation backend
      answers to the k-th POST of one call, and what the video search
      yields for one topic. *)

From Stdlib Require Import ZArith List Lia Ascii String.
From stdpp Require Import list strings.

Local Open Scope string_scope.
Local Open Scope list_scope.
Set Warnings "-register-all".

(** ** Python strings *)

Module PyStr.

(** [str.isspace] on the code points below 256: TAB..CR, FS..US, SPACE,
    NEL and NBSP. *)
Definition is_space (c : ascii) : bool :=
  let n := nat_of_ascii c in
  (Nat.leb 9 n && Nat.leb n 13) || (Nat.leb 28 n && Nat.leb n 31)
  || Nat.eqb n 32 || Nat.eqb n 133 || Nat.eqb n 160.

Fixpoint lstrip (s : string) : string :=
  match s with
  | EmptyString => EmptyString
  | String c rest => if is_space c then lstrip rest else s
  end.

Fixpoint rstrip (s : string) : string :=
  match s with
  | EmptyString => EmptyString
  | String c rest =>
      match rstrip rest with
      | EmptyString => if is_space c then EmptyString else String c EmptyString
      | kept => String c kept
      end
  end.

(** [s.strip()] *)
Definition strip (s : string) : string := rstrip (lstrip s).

(** [s.startswith(p)] *)
Definition startswith (s p : string) : bool := String.prefix p s.

(** [s.replace(old, new)] for a non-empty [old]: scan from the left, at
    each occurrence of [old] emit [new] and jump over the occurrence
    ([skip] counts the characters of it still to be dropped). *)
Fixpoint replace_from (old new : string) (skip : nat) (s : string) : string :=
  match s with
  | EmptyString => EmptyString
  | String c rest =>
      match skip with
      | S k => replace_from old new k rest
      | O =>
          if String.prefix old s
          then new +:+ replace_from old new (String.length old - 1) rest
          else String c (replace_from old new 0 rest)
      end
  end.

(** [s.replace("", new)] puts [new] before every character and at the end. *)
Fixpoint replace_empty (new : string) (s : string) : string :=
  match s with
  | EmptyString => new
  | String c rest => new +:+ String c (replace_empty new rest)
  end.

Definition replace (s old new : string) : string :=
  match old with
  | EmptyString => replace_empty new s
  | _ => replace_from old new 0 s
  end.

(** [s.split(sep)] for a one-character separator. *)
Fixpoint split (s : string) (sep : ascii) : list string :=
  match s with
  | EmptyString => [EmptyString]
  | String c rest =>
      let parts := split rest sep in
      if Ascii.eqb c sep then EmptyString :: parts
      else match parts with
           | p :: ps => String c p :: ps
           | [] => [String c EmptyString]
           end
  end.

(** [s[:n]] *)
Definition slice_to (n : nat) (s : string) : string := String.substring 0 n s.

Definition is_empty (s : string) : bool :=
  match s with EmptyString => true | _ => false end.

Definition newline : ascii := "010"%char.

End PyStr.

(** ** JSON values, as Python sees them *)

Inductive json : Type :=
| JNull
| JBool (b : bool)
| JNum (n : Z)
| JStr (s : string)
| JArr (items : list json)
| JObj (fields : list (string * json)).

(** The exceptions the modelled code can meet; all of them are subclasses of
    [Exception], so [except Exception] catches each. *)
Inductive exn : Type :=
| ClientError      (* aiohttp transport failure *)
| TimeoutError     (* the 30 s request timeout expired *)
| JSONDecodeError  (* response.json() could not parse the body *)
| IndexError
| KeyError
| TypeError
| AttributeError
| LookupFailure.   (* anything YoutubeSearch raises *)

Inductive res (A : Type) : Type :=
| Ok (a : A)
| Raise (e : exn).
Arguments Ok {A} a.
Arguments Raise {A} e.

Module Py.

Fixpoint dict_find (k : string) (fields : list (string * json)) : option json :=
  match fields with
  | [] => None
  | (k', v) :: rest => if String.eqb k k' then Some v else dict_find k rest
  end.

(** [d.get(k, default)]: only a dict has the method. *)
Definition get (d : json) (k : string) (default : json) : res json :=
  match d with
  | JObj fields =>
      Ok (match dict_find k fields with Some v => v | None => default end)
  | _ => Raise AttributeError
  end.

(** [v[0]] *)
Definition index0 (v : json) : res json :=
  match v with
  | JArr (x :: _) => Ok x
  | JArr [] => Raise IndexError
  | JStr (String c _) => Ok (JStr (String c EmptyString))
  | JStr EmptyString => Raise IndexError
  | JObj _ => Raise KeyError
  | JNull | JBool _ | JNum _ => Raise TypeError
  end.

(** [v[:100]]: strings and lists can be sliced, nothing else can.  For a
    dict the exception is TypeError up to CPython 3.11 and KeyError from
    3.12 on, where a slice is hashable; the model has the former, and no
    statement below depends on which of the two it is. *)
Definition slice100 (v : json) : res json :=
  match v with
  | JStr s => Ok (JStr (PyStr.slice_to 100 s))
  | JArr l => Ok (JArr (take 100 l))
  | _ => Raise TypeError
  end.

(** [not v] *)
Definition falsy (v : json) : bool :=
  match v with
  | JNull => true
  | JBool b => negb b
  | JNum n => Z.eqb n 0
  | JStr s => PyStr.is_empty s
  | JArr l => match l with [] => true | _ => false end
  | JObj f => match f with [] => true | _ => false end
  end.

(** [v.strip()] *)
Definition strip (v : json) : res string :=
  match v with
  | JStr s => Ok (PyStr.strip s)
  | _ => Raise AttributeError
  end.

(** [v.split('\n')] *)
Definition split_lines (v : json) : res (list string) :=
  match v with
  | JStr s => Ok (PyStr.split s PyStr.newline)
  | _ => Raise AttributeError
  end.

End Py.

(** ** Effects *)

Inductive event : Type :=
| Post (prompt : string) (attempt : nat)   (* session.post(...) *)
| Sleep (seconds : Z)                      (* asyncio.sleep(seconds) *)
| LogError (attempt_no : nat) (e : exn)    (* logging.error *)
| Print (v : json)                         (* print(description) *)
| LogInfo (topic : string) (head : json)   (* logging.info *)
| LogWarning (topic : string)              (* logging.warning *)
| Submit (topic : string)                  (* run_in_executor(executor, get_videos) *)
| Search (query : string) (max_results : Z). (* YoutubeSearch(query, max_results) *)

(** A computation reads the log of what happened before it and returns its
    outcome with the log extended. *)
Definition M (A : Type) : Type := list event -> res A * list event.

Definition ret {A} (a : A) : M A := fun log => (Ok a, log).

Definition bind {A B} (m : M A) (k : A -> M B) : M B :=
  fun log =>
    match m log with
    | (Ok a, log') => k a log'
    | (Raise e, log') => (Raise e, log')
    end.

Definition raise {A} (e : exn) : M A := fun log => (Raise e, log).

Definition lift {A} (r : res A) : M A := fun log => (r, log).

Definition emit (ev : event) : M unit := fun log => (Ok tt, log ++ [ev]).

(** [try: body  except Exception as e: handler e] *)
Definition try_except {A} (body : M A) (handler : exn -> M A) : M A :=
  fun log =>
    match body log with
    | (Ok a, log') => (Ok a, log')
    | (Raise e, log') => handler e log'
    end.

Declare Scope py_scope.
Delimit Scope py_scope with py.
Notation "'let!' x ':=' m 'in' k" := (bind m (fun x => k))
  (at level 10, x name, m at level 100, k at level 200) : py_scope.
Notation "'do!' m 'in' k" := (bind m (fun _ => k))
  (at level 10, m at level 100, k at level 200) : py_scope.
Local Open Scope py_scope.

(** Run a coroutine from an empty log. *)
Definition run {A} (m : M A) : res A * list event := m [].
Definition result {A} (m : M A) : res A := fst (run m).
Definition trace {A} (m : M A) : list event := snd (run m).

(** Total time slept, and number of requests sent, in a log. *)
Definition slept (log : list event) : Z :=
  foldr (fun ev acc => match ev with Sleep d => (d + acc)%Z | _ => acc end) 0%Z log.

Definition posts (log : list event) : nat :=
  length (List.filter (fun ev => match ev with Post _ _ => true | _ => false end) log).

(** ** The retrying call client: [query_gemini] *)

(** What one POST meets: [session.post] raises (transport failure, timeout),
    or a response arrives with a status and a body that [response.json()]
    parses or fails to parse. *)
Inductive outcome : Type :=
| Fails (e : exn)
| Responds (status : Z) (body : res json).

(** The backend seen from one call: its answer to the attempt number k. *)
Definition script : Type := nat -> outcome.

Definition max_retries : nat := 3.
Definition base_delay : Z := 1.

(** [data.get('candidates', [{}])[0].get('content', {}).get('parts', [{}])[0].get('text', '')] *)
Definition extract_text (data : json) : M json :=
  let! candidates := lift (Py.get data "candidates" (JArr [JObj []])) in
  let! candidate := lift (Py.index0 candidates) in
  let! content := lift (Py.get candidate "content" (JObj [])) in
  let! parts := lift (Py.get content "parts" (JArr [JObj []])) in
  let! part := lift (Py.index0 parts) in
  lift (Py.get part "text" (JStr "")).

(** How one turn of a [for] loop ends: it falls through (or hits [continue]),
    or it leaves the function with [return]. *)
Inductive flow (A : Type) : Type :=
| Continue
| Return (a : A).
Arguments Continue {A}.
Arguments Return {A} a.

(** [for i in items: body i] followed by [orelse] when no turn returned. *)
Fixpoint for_each {A} (items : list nat) (body : nat -> M (flow A)) (orelse : M A) : M A :=
  match items with
  | [] => orelse
  | i :: rest =>
      let! f := body i in
      match f with
      | Continue => for_each rest body orelse
      | Return a => ret a
      end
  end.

(** The body of the retry loop: the [try] block and its handler. *)
Definition attempt_body (backend : script) (prompt : string) (attempt : nat) : M (flow json) :=
  try_except
    (do! emit (Post prompt attempt) in
     match backend attempt with
     | Fails e => raise e
     | Responds status body =>
         if Z.eqb status 429 then
           let delay := (base_delay * 2 ^ Z.of_nat attempt)%Z in
           do! emit (Sleep delay) in
           ret Continue
         else
           let! data := lift body in
           let! text := extract_text data in
           ret (Return text)
     end)
    (fun e =>
       do! emit (LogError (attempt + 1) e) in
       do! (if Nat.ltb attempt (max_retries - 1)
            then emit (Sleep (base_delay * 2 ^ Z.of_nat attempt)%Z)
            else ret tt) in
       ret Continue).

Definition query_gemini (backend : script) (prompt : string) : M json :=
  for_each (seq 0 max_retries) (attempt_body backend prompt) (ret (JStr "")).

(** ** One topic: description, videos, record *)

Record VideoContent : Type := {
  url : string;
  title : string;
  duration : string;
  views : string
}.

Record TopicContent : Type := {
  topic : string;
  description : string;
  videos : list VideoContent
}.

Definition description_prompt (topic : string) : string :=
  "Provide a comprehensive technical description of '" +:+ topic +:+ "' in 5-7 lines.
        Focus on:
        - Key concepts and fundamentals
        - Important applications and use cases
        - Technical challenges and considerations
        - Best practices and common patterns
        - Real-world relevance

        Make it educational and suitable for a technical course syllabus.".

Definition fallback (topic : string) : string :=
  "Description generation failed for " +:+ topic.

Definition get_topic_description (backend : script) (topic : string) : M string :=
  let! description := query_gemini backend (description_prompt topic) in
  do! emit (Print description) in
  let! head := lift (Py.slice100 description) in
  do! emit (LogInfo topic head) in
  let! description :=
    (if Py.falsy description
     then do! emit (LogWarning topic) in ret (JStr (fallback topic))
     else ret description) in
  lift (Py.strip description).

(** A raw search result: a dict from field names to strings. *)
Definition raw_record : Type := list (string * string).

Fixpoint field (k : string) (r : raw_record) : option string :=
  match r with
  | [] => None
  | (k', v) :: rest => if String.eqb k k' then Some v else field k rest
  end.

(** [r[k]] *)
Definition getitem (r : raw_record) (k : string) : M string :=
  match field k r with
  | Some v => ret v
  | None => raise KeyError
  end.

(** [r.get(k, default)] *)
Definition get_or (r : raw_record) (k default : string) : string :=
  match field k r with
  | Some v => v
  | None => default
  end.

(** [VideoContent(url=..., title=..., duration=..., views=...)] for one [r]. *)
Definition video_of (r : raw_record) : M VideoContent :=
  let! url_suffix := getitem r "url_suffix" in
  let! title := getitem r "title" in
  let! duration := getitem r "duration" in
  ret {| url := "https://youtube.com" +:+ url_suffix;
         title := title;
         duration := duration;
         views := get_or r "views" "N/A" |}.

(** [[f r for r in l]] *)
Fixpoint comprehension {A B} (f : A -> M B) (l : list A) : M (list B) :=
  match l with
  | [] => ret []
  | r :: rest =>
      let! v := f r in
      let! vs := comprehension f rest in
      ret (v :: vs)
  end.

(** What [YoutubeSearch(query, max_results=5).to_dict()] does for one topic:
    it raises, or it yields the result records. *)
Definition lookup : Type := res (list raw_record).

Definition get_videos (yt : lookup) (topic : string) : M (list VideoContent) :=
  try_except
    (do! emit (Search ("tutorial " +:+ topic) 5) in
     let! results := lift yt in
     comprehension video_of results)
    (fun _ => ret []).

(** [loop.run_in_executor(executor, f)]: hand [f] to the pool and wait for
    its result. *)
Definition run_in_executor {A} (topic : string) (f : M A) : M A :=
  do! emit (Submit topic) in f.

Definition process_topic (backend : script) (yt : lookup) (topic : string) : M TopicContent :=
  let! description := get_topic_description backend topic in
  let! videos := run_in_executor topic (get_videos yt topic) in
  ret {| topic := topic; description := description; videos := videos |}.

(** ** The topic parser of [process_all] *)

Definition marker : string := "Topic:".

(** The [for line in ...] loop, [topics] being the list built so far. *)
Fixpoint extract_loop (lines : list string) (topics : list string) : list string :=
  match lines with
  | [] => topics
  | line :: rest =>
      if PyStr.startswith line marker then
        let topic := PyStr.strip (PyStr.replace line marker "") in
        if negb (PyStr.is_empty topic)
        then extract_loop rest (topics ++ [topic])
        else extract_loop rest topics
      else extract_loop rest topics
  end.

Definition extract_topics (topics_text : string) : list string :=
  extract_loop (PyStr.split topics_text PyStr.newline) [].

(** ** The fan-out: [asyncio.gather] *)

Section Gather.
Context {A : Type}.

(** A child future of [gather]. *)
Inductive future : Type :=
| Pending
| Done (r : res A).

(** The state [gather] keeps: its children in argument order, the count
    of finished ones, and the outer future it hands to the awaiting task
    ([None] while that future is not done). *)
Record gathering : Type := {
  children : list future;
  nfinished : nat;
  outer : option (res (list A))
}.

(** [[fut.result() for fut in children]] *)
Fixpoint collect (futs : list future) : option (list A) :=
  match futs with
  | [] => Some []
  | Done (Ok a) :: rest => cons a <$> collect rest
  | _ :: _ => None
  end.

(** With no awaitable the outer future is done at once, with []. *)
Definition gather_init (n : nat) : gathering :=
  {| children := replicate n Pending;
     nfinished := 0;
     outer := match n with O => Some (Ok []) | S _ => None end |}.

(** The callback run when child [i] finishes with [r]
    ([return_exceptions] is False): a raised exception goes to the outer
    future at once; the last child to finish assembles the results by
    walking the children in argument order. *)
Definition done_callback (st : gathering) (i : nat) (r : res A) : gathering :=
  let futs := <[i := Done r]> (children st) in
  let n := S (nfinished st) in
  match outer st with
  | Some o => {| children := futs; nfinished := n; outer := Some o |}
  | None =>
      match r with
      | Raise e => {| children := futs; nfinished := n; outer := Some (Raise e) |}
      | Ok _ =>
          if Nat.eqb n (length futs)
          then {| children := futs; nfinished := n; outer := Ok <$> collect futs |}
          else {| children := futs; nfinished := n; outer := None |}
      end
  end.

(** Awaiting [asyncio.gather] over the tasks, when task number i ends in [tasks !! i]
    and the tasks finish in the order [order]: what the awaiting
    coroutine receives, [None] if the outer future never completes. *)
Definition gather (tasks : list (res A)) (order : list nat) : option (res (list A)) :=
  outer
    (foldl (fun st i =>
              match tasks !! i with
              | Some r => done_callback st i r
              | None => st
              end)
           (gather_init (length tasks)) order).

End Gather.
Arguments future : clear implicits.
Arguments gathering : clear implicits.

(** ** The pipeline: [process_all] *)

Definition topic_prompt : string :=
  "Analyze this text and extract ALL technical topics being taught.
                        Ignore headings, sections, or administrative text.
                        Each topic should be a specific concept or skill.
                        List each topic on a new line starting with 'Topic:'.
                        
                        Rules:
                        - Extract every possible topic, even if briefly mentioned
                        - Break down composite topics into individual components
                        - Exclude course logistics, grading policies, or administrative text
                        - Focus on actual learning content
                        - Each topic should be granular - break larger topics into specific sub-topics
                        ".

(** Everything outside the program that one run of [process_all] meets. *)
Record world : Type := {
  document : string;              (* pymupdf4llm.to_markdown(pdf_path) *)
  topics_backend : script;        (* the backend, for the extraction call *)
  desc_backend : nat -> script;   (* the backend, for the call of task i *)
  video_lookup : nat -> lookup;   (* the video search of task i *)
  completion : list nat           (* the order in which the tasks finish *)
}.

(** [[self.process_topic(session, topic) for topic in topics]], each task
    given by the outcome it runs to. *)
Definition tasks (w : world) (topics : list string) : list (res TopicContent) :=
  imap (fun i t => result (process_topic (desc_backend w i) (video_lookup w i) t)) topics.

Definition enrich_all (w : world) (topics : list string) : option (res (list TopicContent)) :=
  gather (tasks w topics) (completion w).

Definition extraction_prompt (text : string) : string :=
  topic_prompt +:+ String PyStr.newline (String PyStr.newline "Text to analyze:")
               +:+ String PyStr.newline text.

Definition process_all (w : world) : option (res (list TopicContent)) :=
  match result (query_gemini (topics_backend w) (extraction_prompt (document w))) with
  | Raise e => Some (Raise e)
  | Ok topics_text =>
      match Py.split_lines topics_text with
      | Raise e => Some (Raise e)
      | Ok lines => enrich_all w (extract_loop lines [])
      end
  end.

(** ** Persistence and entry point *)

(** [vars(v)]: the fields of the dataclass instance, in declaration order. *)
Definition video_vars (v : VideoContent) : json :=
  JObj [("url", JStr (url v)); ("title", JStr (title v));
        ("duration", JStr (duration v)); ("views", JStr (views v))].

(** The dict [save_results] builds for one record. *)
Definition topic_entry (r : TopicContent) : json :=
  JObj [("topic", JStr (topic r)); ("description", JStr (description r));
        ("videos", JArr (video_vars <$> videos r))].

(** What [save_results] does: the file it opens for writing and the value
    it hands to [json.dump]. *)
Record written : Type := {
  path : string;
  payload : json
}.

Definition save_results (results : list TopicContent) (output_path : string) : written :=
  {| path := output_path +:+ ".json";
     payload := JArr (topic_entry <$> results) |}.

(** [asyncio.run(self.process_all(pdf_path))] *)
Definition process_syllabus (w : world) : option (res (list TopicContent)) :=
  process_all w.

(** How [main] ends: it saved the results, it logged the warning, or the
    exception of [process_syllabus] went through it. *)
Inductive main_outcome : Type :=
| Saved (f : written)
| Warned (message : string)
| Crashed (e : exn).

(** [main], [None] when the pipeline never completes. *)
Definition main (w : world) : option main_outcome :=
  match process_syllabus w with
  | None => None
  | Some (Raise e) => Some (Crashed e)
  | Some (Ok results) =>
      match results with
      | [] => Some (Warned "No results generated")
      | _ :: _ => Some (Saved (save_results results "syllabus_content"))
      end
  end.

(** * Properties *)

(** ** The log is append-only

    Every computation below extends the log it is given by a suffix that
    does not depend on the log, and its outcome does not depend on the log
    either.  [appends m] says so; it lets outcomes and traces be computed
    piece by piece. *)

Definition appends {A} (m : M A) : Prop :=
  forall log, m log = (result m, log ++ trace m).

Create HintDb appends.

Lemma appends_ret {A} (a : A) : appends (ret a).
Proof. intros log. unfold ret, result, trace, run. simpl. by rewrite app_nil_r. Qed.

Lemma appends_raise {A} (e : exn) : appends (@raise A e).
Proof. intros log. unfold raise, result, trace, run. simpl. by rewrite app_nil_r. Qed.

Lemma appends_lift {A} (r : res A) : appends (lift r).
Proof. intros log. unfold lift, result, trace, run. simpl. by rewrite app_nil_r. Qed.

Lemma appends_emit ev : appends (emit ev).
Proof. intros log. reflexivity. Qed.

Lemma appends_bind {A B} (m : M A) (k : A -> M B) :
  appends m -> (forall a, appends (k a)) -> appends (bind m k).
Proof.
  intros Hm Hk log. unfold result, trace, run, bind.
  rewrite (Hm log), (Hm []). simpl.
  destruct (result m) as [a|e].
  - rewrite (Hk a (log ++ trace m)), (Hk a (trace m)). simpl.
    by rewrite app_assoc.
  - reflexivity.
Qed.

Lemma appends_try_except {A} (body : M A) (handler : exn -> M A) :
  appends body -> (forall e, appends (handler e)) -> appends (try_except body handler).
Proof.
  intros Hb Hh log. unfold result, trace, run, try_except.
  rewrite (Hb log), (Hb []). simpl.
  destruct (result body) as [a|e].
  - reflexivity.
  - rewrite (Hh e (log ++ trace body)), (Hh e (trace body)). simpl.
    by rewrite app_assoc.
Qed.

Lemma appends_if {A} (b : bool) (m1 m2 : M A) :
  appends m1 -> appends m2 -> appends (if b then m1 else m2).
Proof. by destruct b. Qed.

#[local] Hint Resolve appends_ret appends_raise appends_lift appends_emit
  appends_bind appends_try_except appends_if : appends.

(** Outcome and trace of a sequence, from those of its parts. *)
Lemma run_bind {A B} (m : M A) (k : A -> M B) :
  appends m -> (forall a, appends (k a)) ->
  run (bind m k) =
    match result m with
    | Ok a => (result (k a), trace m ++ trace (k a))
    | Raise e => (Raise e, trace m)
    end.
Proof.
  intros Hm Hk. unfold run, bind. rewrite (Hm []). simpl.
  destruct (result m) as [a|e]; [|done]. by rewrite (Hk a (trace m)).
Qed.

Lemma result_bind {A B} (m : M A) (k : A -> M B) :
  appends m -> (forall a, appends (k a)) ->
  result (bind m k) = match result m with Ok a => result (k a) | Raise e => Raise e end.
Proof.
  intros Hm Hk. unfold result at 1. rewrite run_bind by done.
  by destruct (result m).
Qed.

Lemma trace_bind {A B} (m : M A) (k : A -> M B) :
  appends m -> (forall a, appends (k a)) ->
  trace (bind m k) = trace m ++ match result m with Ok a => trace (k a) | Raise _ => [] end.
Proof.
  intros Hm Hk. unfold trace at 1. rewrite run_bind by done.
  destruct (result m); simpl; [done|by rewrite app_nil_r].
Qed.

Lemma run_try_except {A} (body : M A) (handler : exn -> M A) :
  appends body -> (forall e, appends (handler e)) ->
  run (try_except body handler) =
    match result body with
    | Ok a => (Ok a, trace body)
    | Raise e => (result (handler e), trace body ++ trace (handler e))
    end.
Proof.
  intros Hb Hh. unfold run, try_except. rewrite (Hb []). simpl.
  destruct (result body) as [a|e]; [done|]. by rewrite (Hh e (trace body)).
Qed.

(** ** The retry loop *)

Lemma appends_extract_text data : appends (extract_text data).
Proof. unfold extract_text. auto 20 with appends. Qed.

Lemma trace_extract_text data : trace (extract_text data) = [].
Proof.
  unfold extract_text, trace, run, bind, lift.
  repeat match goal with
         | |- context [match ?x with Ok _ => _ | Raise _ => _ end] => destruct x
         end; reflexivity.
Qed.

(** What the attempt number k hands back to the caller: the text of a
    response that is neither rate-limited nor unusable, [None] when the
    loop goes on to the next attempt. *)
Definition answer (backend : script) (k : nat) : option json :=
  match backend k with
  | Fails _ => None
  | Responds status body =>
      if Z.eqb status 429 then None
      else match body with
           | Ok data =>
               match result (extract_text data) with
               | Ok text => Some text
               | Raise _ => None
               end
           | Raise _ => None
           end
  end.

(** What the [except] branch of attempt k leaves in the log. *)
Definition handler_trace (k : nat) (e : exn) : list event :=
  LogError (k + 1) e ::
  (if Nat.ltb k (max_retries - 1) then [Sleep (base_delay * 2 ^ Z.of_nat k)%Z] else []).

(** What attempt k leaves in the log. *)
Definition attempt_trace (backend : script) (prompt : string) (k : nat) : list event :=
  Post prompt k ::
  match backend k with
  | Fails e => handler_trace k e
  | Responds status body =>
      if Z.eqb status 429 then [Sleep (base_delay * 2 ^ Z.of_nat k)%Z]
      else match body with
           | Ok data =>
               match result (extract_text data) with
               | Ok _ => []
               | Raise e => handler_trace k e
               end
           | Raise e => handler_trace k e
           end
  end.

Definition flow_of (o : option json) : flow json :=
  match o with Some v => Return v | None => Continue end.

Ltac log_eq := simpl; rewrite <- ?app_assoc; reflexivity.

Lemma attempt_body_run backend prompt k log :
  attempt_body backend prompt k log =
    (Ok (flow_of (answer backend k)), log ++ attempt_trace backend prompt k).
Proof.
  unfold attempt_body, answer, attempt_trace, handler_trace.
  unfold try_except, bind, emit, raise, ret, lift.
  destruct (backend k) as [e|status body].
  - destruct (Nat.ltb k (max_retries - 1)); log_eq.
  - destruct (Z.eqb status 429).
    + log_eq.
    + destruct body as [data|e].
      * rewrite (appends_extract_text data), trace_extract_text, app_nil_r.
        destruct (result (extract_text data)) as [text|e]; [done|].
        destruct (Nat.ltb k (max_retries - 1)); log_eq.
      * destruct (Nat.ltb k (max_retries - 1)); log_eq.
Qed.

Lemma appends_attempt_body backend prompt k : appends (attempt_body backend prompt k).
Proof.
  intros log. unfold result, trace, run. by rewrite !attempt_body_run.
Qed.
#[local] Hint Resolve appends_attempt_body appends_extract_text : appends.

(** The value the loop returns over the attempts [items], and the attempts
    it actually makes. *)
Fixpoint first_answer (backend : script) (items : list nat) : json :=
  match items with
  | [] => JStr ""
  | k :: rest =>
      match answer backend k with
      | Some v => v
      | None => first_answer backend rest
      end
  end.

Fixpoint attempted (backend : script) (items : list nat) : list nat :=
  match items with
  | [] => []
  | k :: rest =>
      match answer backend k with
      | Some _ => [k]
      | None => k :: attempted backend rest
      end
  end.

Definition loop_trace (backend : script) (prompt : string) (items : list nat) : list event :=
  concat (map (attempt_trace backend prompt) (attempted backend items)).

Lemma retry_loop_run backend prompt items log :
  for_each items (attempt_body backend prompt) (ret (JStr "")) log =
    (Ok (first_answer backend items), log ++ loop_trace backend prompt items).
Proof.
  revert log. induction items as [|k rest IH]; intros log.
  - unfold loop_trace. simpl. unfold ret. by rewrite app_nil_r.
  - simpl. unfold bind at 1. rewrite attempt_body_run.
    unfold loop_trace. simpl. destruct (answer backend k) as [v|]; simpl.
    + unfold ret. by rewrite app_nil_r.
    + rewrite IH. unfold loop_trace. by rewrite <- app_assoc.
Qed.

Lemma query_gemini_run backend prompt log :
  query_gemini backend prompt log =
    (Ok (first_answer backend (seq 0 max_retries)),
     log ++ loop_trace backend prompt (seq 0 max_retries)).
Proof. apply retry_loop_run. Qed.

Lemma appends_query_gemini backend prompt : appends (query_gemini backend prompt).
Proof. intros log. unfold result, trace, run. by rewrite !query_gemini_run. Qed.
#[local] Hint Resolve appends_query_gemini : appends.

Lemma query_gemini_result backend prompt :
  result (query_gemini backend prompt) = Ok (first_answer backend (seq 0 max_retries)).
Proof. unfold result, run. by rewrite query_gemini_run. Qed.

Lemma query_gemini_trace backend prompt :
  trace (query_gemini backend prompt) = loop_trace backend prompt (seq 0 max_retries).
Proof. unfold trace, run. by rewrite query_gemini_run. Qed.

(** The call never raises, whatever the backend does. *)
Lemma query_gemini_never_raises backend prompt :
  exists v, result (query_gemini backend prompt) = Ok v.
Proof. rewrite query_gemini_result. eauto. Qed.

Lemma posts_app l1 l2 : posts (l1 ++ l2) = posts l1 + posts l2.
Proof. unfold posts. by rewrite List.filter_app, length_app. Qed.

Lemma posts_handler_trace k e : posts (handler_trace k e) = 0.
Proof. unfold handler_trace. by destruct (Nat.ltb k (max_retries - 1)). Qed.

Lemma posts_attempt_trace backend prompt k : posts (attempt_trace backend prompt k) = 1.
Proof.
  unfold attempt_trace. change (posts (Post prompt k :: ?l)) with (S (posts l)).
  f_equal.
  destruct (backend k) as [e|status body]; [apply posts_handler_trace|].
  destruct (Z.eqb status 429); [done|].
  destruct body as [data|e]; [|apply posts_handler_trace].
  destruct (result (extract_text data)); [done|apply posts_handler_trace].
Qed.

(** One POST per attempt made. *)
Lemma posts_loop_trace backend prompt items :
  posts (loop_trace backend prompt items) = length (attempted backend items).
Proof.
  unfold loop_trace. induction (attempted backend items) as [|k l IH]; [done|].
  cbn [map concat length]. by rewrite posts_app, posts_attempt_trace, IH.
Qed.

Lemma attempted_bound backend items : length (attempted backend items) <= length items.
Proof.
  induction items as [|k rest IH]; simpl; [lia|].
  destruct (answer backend k); simpl; lia.
Qed.

(** *** Retry bound *)

(** A backend that answers every POST of a call with status 429,
    whatever bodies come with it. *)
Definition rate_limited (bodies : nat -> res json) : script :=
  fun k => Responds 429 (bodies k).

(** C4. The client sends at most 3 requests per call, whatever the backend
    does; against a backend that always answers 429 it returns the empty
    string after exactly 3 requests, having slept base_delay*(1+2+4)
    seconds in total, with base_delay = 1. *)
Theorem query_gemini_retry_bound :
  max_retries = 3 /\ base_delay = 1%Z /\
  (forall backend prompt, posts (trace (query_gemini backend prompt)) <= max_retries) /\
  (forall bodies prompt,
     result (query_gemini (rate_limited bodies) prompt) = Ok (JStr "") /\
     posts (trace (query_gemini (rate_limited bodies) prompt)) = 3 /\
     slept (trace (query_gemini (rate_limited bodies) prompt)) = (base_delay * (1 + 2 + 4))%Z).
Proof.
  split; [reflexivity|]. split; [reflexivity|]. split.
  - intros backend prompt.
    rewrite query_gemini_trace, posts_loop_trace.
    etrans; [apply attempted_bound|]. by rewrite length_seq.
  - intros bodies prompt. repeat split.
Qed.

(** *** When the empty string comes back *)

(** An attempt is retried exactly when the POST raised, the status was 429,
    the body did not parse, or the text could not be reached in it. *)
Lemma answer_None backend k :
  answer backend k = None <->
  (exists e, backend k = Fails e) \/
  (exists body, backend k = Responds 429 body) \/
  (exists status e, backend k = Responds status (Raise e)) \/
  (exists status data e,
      backend k = Responds status (Ok data) /\ result (extract_text data) = Raise e).
Proof.
  unfold answer. split.
  - destruct (backend k) as [e|status body]; [eauto|].
    destruct (Z.eqb_spec status 429) as [->|Hne]; [eauto|].
    destruct body as [data|e]; [|eauto 6].
    destruct (result (extract_text data)) as [v|e] eqn:E; [done|eauto 10].
  - intros [[e ->]|[[body ->]|[(status & e & ->)|(status & data & e & -> & ->)]]];
      try done; by destruct (Z.eqb status 429).
Qed.

Lemma answer_Some backend k v :
  answer backend k = Some v <->
  exists status data,
    backend k = Responds status (Ok data) /\ status <> 429%Z /\
    result (extract_text data) = Ok v.
Proof.
  unfold answer. split.
  - destruct (backend k) as [e|status body]; [done|].
    destruct (Z.eqb_spec status 429) as [->|Hne]; [done|].
    destruct body as [data|e]; [|done].
    destruct (result (extract_text data)) as [w|e] eqn:E; [|done].
    intros [= ->]. eauto.
  - intros (status & data & -> & Hne & ->).
    by destruct (Z.eqb_spec status 429).
Qed.

(** A backend whose first answer is a 200 response carrying the JSON
    object without any key. *)
Definition bare_object_backend : script :=
  fun _ => Responds 200 (Ok (JObj [])).

(** C6, as stated, fails: on the response [{}] the client returns the empty
    string from its first attempt, with two attempts left. *)
Lemma query_gemini_empty_with_retries_left :
  result (query_gemini bare_object_backend "prompt") = Ok (JStr "") /\
  posts (trace (query_gemini bare_object_backend "prompt")) = 1 /\
  1 < max_retries.
Proof. repeat split. unfold max_retries. lia. Qed.

(** C6, amended. The client never raises, whatever each attempt meets.  It
    returns the empty string either after all [max_retries] attempts, each
    of them rate-limited or failed, or from a response with a status other
    than 429 in which the text path itself gives the empty string; in the
    second case no further attempt is made. *)
Theorem query_gemini_empty_result backend prompt :
  (exists v, result (query_gemini backend prompt) = Ok v) /\
  (result (query_gemini backend prompt) = Ok (JStr "") ->
   (posts (trace (query_gemini backend prompt)) = max_retries /\
    forall k, k < max_retries -> answer backend k = None)
   \/
   (exists k status data,
       k < max_retries /\
       backend k = Responds status (Ok data) /\ status <> 429%Z /\
       result (extract_text data) = Ok (JStr "") /\
       posts (trace (query_gemini backend prompt)) = S k)).
Proof.
  split; [apply query_gemini_never_raises|].
  rewrite query_gemini_result, query_gemini_trace, posts_loop_trace.
  unfold max_retries. cbn [seq first_answer attempted].
  destruct (answer backend 0) as [v0|] eqn:E0.
  { intros [= ->]. right. apply answer_Some in E0 as (status & data & ? & ? & ?).
    exists 0, status, data. repeat split; try done; lia. }
  destruct (answer backend 1) as [v1|] eqn:E1.
  { intros [= ->]. right. apply answer_Some in E1 as (status & data & ? & ? & ?).
    exists 1, status, data. repeat split; try done; lia. }
  destruct (answer backend 2) as [v2|] eqn:E2.
  { intros [= ->]. right. apply answer_Some in E2 as (status & data & ? & ? & ?).
    exists 2, status, data. repeat split; try done; lia. }
  intros _. left. split; [done|].
  intros [|[|[|k]]] Hk; try done. lia.
Qed.

(** The amended statement at a backend that times out on every attempt. *)
Lemma query_gemini_empty_result_witness :
  posts (trace (query_gemini (fun _ => Fails TimeoutError) "prompt")) = max_retries.
Proof.
  destruct (proj2 (query_gemini_empty_result (fun _ => Fails TimeoutError) "prompt")
              eq_refl) as [[H _]|(k & status & data & _ & H & _)].
  - exact H.
  - discriminate H.
Defined.

(** *** The shape of a response *)

(** The text is where the client looks for it: first candidate, its
    content, first part, [text]. *)
Inductive well_shaped (text : json) : json -> Prop :=
| WellShaped fields candidate candidates content part parts :
    Py.dict_find "candidates" fields = Some (JArr (JObj candidate :: candidates)) ->
    Py.dict_find "content" candidate = Some (JObj content) ->
    Py.dict_find "parts" content = Some (JArr (JObj part :: parts)) ->
    Py.dict_find "text" part = Some text ->
    well_shaped text (JObj fields).

(** A key is missing on the way to the text: [candidates], or [content] in
    the first candidate, or [parts] in its content (an empty content
    object is such a case), or [text] in the first part. *)
Inductive missing_key : json -> Prop :=
| MissingCandidates fields :
    Py.dict_find "candidates" fields = None ->
    missing_key (JObj fields)
| MissingContent fields candidate candidates :
    Py.dict_find "candidates" fields = Some (JArr (JObj candidate :: candidates)) ->
    Py.dict_find "content" candidate = None ->
    missing_key (JObj fields)
| MissingParts fields candidate candidates content :
    Py.dict_find "candidates" fields = Some (JArr (JObj candidate :: candidates)) ->
    Py.dict_find "content" candidate = Some (JObj content) ->
    Py.dict_find "parts" content = None ->
    missing_key (JObj fields)
| MissingText fields candidate candidates content part parts :
    Py.dict_find "candidates" fields = Some (JArr (JObj candidate :: candidates)) ->
    Py.dict_find "content" candidate = Some (JObj content) ->
    Py.dict_find "parts" content = Some (JArr (JObj part :: parts)) ->
    Py.dict_find "text" part = None ->
    missing_key (JObj fields).

(** The [candidates] list, or the [parts] list of the first candidate's
    content, is present and empty. *)
Inductive empty_list : json -> Prop :=
| EmptyCandidates fields :
    Py.dict_find "candidates" fields = Some (JArr []) ->
    empty_list (JObj fields)
| EmptyParts fields candidate candidates content :
    Py.dict_find "candidates" fields = Some (JArr (JObj candidate :: candidates)) ->
    Py.dict_find "content" candidate = Some (JObj content) ->
    Py.dict_find "parts" content = Some (JArr []) ->
    empty_list (JObj fields).

Ltac extract_text_eval :=
  unfold extract_text, result, run, bind, lift, Py.get, Py.index0; simpl;
  repeat match goal with
         | H : Py.dict_find _ _ = _ |- _ => rewrite H; clear H; simpl
         end.

Lemma extract_text_well_shaped text data :
  well_shaped text data -> result (extract_text data) = Ok text.
Proof. intros []. by extract_text_eval. Qed.

Lemma extract_text_missing_key data :
  missing_key data -> result (extract_text data) = Ok (JStr "").
Proof. intros []; by extract_text_eval. Qed.

Lemma extract_text_empty_list data :
  empty_list data -> result (extract_text data) = Raise IndexError.
Proof. intros []; by extract_text_eval. Qed.

(** A backend whose first 200 response has an empty [candidates] list and
    whose second one carries the text "x". *)
Definition text_response (text : string) : json :=
  JObj [("candidates",
          JArr [JObj [("content",
                        JObj [("parts", JArr [JObj [("text", JStr text)]])])]])].

Definition empty_candidates_then_text : script :=
  fun k =>
    match k with
    | O => Responds 200 (Ok (JObj [("candidates", JArr [])]))
    | _ => Responds 200 (Ok (text_response "x"))
    end.

(** C7, as stated, fails: a response with an empty candidates list does not
    make the client return the empty string.  The attempt is logged as
    failed, the client sleeps and asks again, and here it returns "x". *)
Lemma query_gemini_empty_candidates_retried :
  empty_list (JObj [("candidates", JArr [])]) /\
  run (query_gemini empty_candidates_then_text "prompt") =
    (Ok (JStr "x"),
     [Post "prompt" 0; LogError 1 IndexError; Sleep 1; Post "prompt" 1]).
Proof. split; [by constructor|reflexivity]. Qed.

(** What attempt k does with a response other than 429 whose body parsed:
    it returns the text the body leads to, or it handles the exception
    the text path raised. *)
Lemma attempt_body_on_parsed_response backend prompt k status data log :
  status <> 429%Z ->
  backend k = Responds status (Ok data) ->
  attempt_body backend prompt k log =
    (Ok (flow_of (match result (extract_text data) with
                  | Ok text => Some text | Raise _ => None end)),
     log ++ Post prompt k ::
       match result (extract_text data) with
       | Ok _ => [] | Raise e => handler_trace k e end).
Proof.
  intros Hstatus Hk.
  rewrite attempt_body_run. unfold answer, attempt_trace. rewrite Hk.
  by destruct (Z.eqb_spec status 429).
Qed.

(** The call returns the answer of the first attempt that has one, and
    stops there. *)
Lemma query_gemini_first_answer backend prompt k v :
  k < max_retries ->
  (forall j, j < k -> answer backend j = None) ->
  answer backend k = Some v ->
  result (query_gemini backend prompt) = Ok v /\
  posts (trace (query_gemini backend prompt)) = S k.
Proof.
  intros Hk Hbefore Hans.
  rewrite query_gemini_result, query_gemini_trace, posts_loop_trace.
  unfold max_retries in *. cbn [seq first_answer attempted].
  destruct k as [|[|[|k]]]; [| | |lia].
  - by rewrite Hans.
  - rewrite (Hbefore 0) by lia. by rewrite Hans.
  - rewrite (Hbefore 0), (Hbefore 1) by lia. by rewrite Hans.
Qed.

(** When no attempt has an answer the call returns the empty string after
    all of them. *)
Lemma query_gemini_no_answer backend prompt :
  (forall j, j < max_retries -> answer backend j = None) ->
  result (query_gemini backend prompt) = Ok (JStr "") /\
  posts (trace (query_gemini backend prompt)) = max_retries.
Proof.
  intros Hnone.
  rewrite query_gemini_result, query_gemini_trace, posts_loop_trace.
  unfold max_retries in *. cbn [seq first_answer attempted].
  by rewrite (Hnone 0), (Hnone 1), (Hnone 2) by lia.
Qed.

(** C7, amended. Let attempt k be the first one that is neither
    rate-limited nor failed on the way: it receives a response with a
    status other than 429 and a body that parses.  If the text is in place
    the call returns it, and if a key on the way to it is missing the call
    returns the empty string, in both cases without a further request.  If
    the candidates list or the parts list is empty, the attempt raises
    IndexError inside the [try]: it is logged and followed by the backoff
    sleep when attempts remain, and the call returns the text of the next
    attempt that has one, the empty string only when none of the remaining
    attempts has.  In no case does the call raise. *)
Theorem query_gemini_on_parsed_response backend prompt k status data :
  k < max_retries ->
  (forall j, j < k -> answer backend j = None) ->
  status <> 429%Z ->
  backend k = Responds status (Ok data) ->
  (forall text, well_shaped text data ->
     result (query_gemini backend prompt) = Ok text /\
     posts (trace (query_gemini backend prompt)) = S k) /\
  (missing_key data ->
     result (query_gemini backend prompt) = Ok (JStr "") /\
     posts (trace (query_gemini backend prompt)) = S k) /\
  (empty_list data ->
     (forall log,
        attempt_body backend prompt k log =
          (Ok Continue,
           log ++ [Post prompt k; LogError (k + 1) IndexError] ++
           (if Nat.ltb k (max_retries - 1)
            then [Sleep (base_delay * 2 ^ Z.of_nat k)%Z] else []))) /\
     (forall k' text,
        k < k' -> k' < max_retries ->
        (forall j, k < j -> j < k' -> answer backend j = None) ->
        answer backend k' = Some text ->
        result (query_gemini backend prompt) = Ok text /\
        posts (trace (query_gemini backend prompt)) = S k') /\
     ((forall j, k < j -> j < max_retries -> answer backend j = None) ->
      result (query_gemini backend prompt) = Ok (JStr "") /\
      posts (trace (query_gemini backend prompt)) = max_retries)) /\
  (exists v, result (query_gemini backend prompt) = Ok v).
Proof.
  intros Hk Hbefore Hstatus Hb.
  assert (Hans : forall v, result (extract_text data) = Ok v -> answer backend k = Some v).
  { intros v Hv. apply answer_Some. eauto. }
  split; [|split; [|split]].
  - intros text H. apply query_gemini_first_answer; [done|done|].
    by apply Hans, extract_text_well_shaped.
  - intros H. apply query_gemini_first_answer; [done|done|].
    by apply Hans, extract_text_missing_key.
  - intros H. pose proof (extract_text_empty_list _ H) as Hraise.
    assert (Hnone : answer backend k = None).
    { apply answer_None. right. right. right. eauto. }
    assert (Hupto : forall k', k < k' ->
              (forall j, k < j -> j < k' -> answer backend j = None) ->
              forall j, j < k' -> answer backend j = None).
    { intros k' Hlt Hbetween j Hj.
      destruct (Nat.lt_trichotomy j k) as [?|[->|?]]; auto. }
    split; [|split].
    + intros log.
      rewrite (attempt_body_on_parsed_response _ _ _ _ _ _ Hstatus Hb), Hraise.
      unfold handler_trace. reflexivity.
    + intros k' text Hlt Hk' Hbetween Hlater.
      apply query_gemini_first_answer; [done| |done].
      by apply Hupto.
    + intros Hrest. apply query_gemini_no_answer.
      apply Hupto; [done|]. intros j ? ?. by apply Hrest.
  - apply query_gemini_never_raises.
Qed.

(** The amended statement at the backend above: the first attempt meets
    the empty candidates list, the second one has the text, and the call
    returns it after two requests. *)
Lemma query_gemini_on_parsed_response_witness :
  result (query_gemini empty_candidates_then_text "prompt") = Ok (JStr "x") /\
  posts (trace (query_gemini empty_candidates_then_text "prompt")) = 2.
Proof.
  destruct (query_gemini_on_parsed_response empty_candidates_then_text "prompt" 0 200
              (JObj [("candidates", JArr [])])) as (_ & _ & H & _).
  - unfold max_retries. lia.
  - intros j Hj. lia.
  - lia.
  - reflexivity.
  - destruct H as (_ & Hlater & _); [by constructor|].
    apply (Hlater 1 (JStr "x")).
    + lia.
    + unfold max_retries. lia.
    + intros j ? ?. lia.
    + reflexivity.
Defined.

(** ** The description path *)

(** The description made from the text [s] the client returned. *)
Definition describe (s topic : string) : string :=
  PyStr.strip (if PyStr.is_empty s then fallback topic else s).

Lemma appends_get_topic_description backend topic :
  appends (get_topic_description backend topic).
Proof. unfold get_topic_description. auto 20 with appends. Qed.
#[local] Hint Resolve appends_get_topic_description : appends.

Lemma get_topic_description_run backend topic s :
  result (query_gemini backend (description_prompt topic)) = Ok (JStr s) ->
  run (get_topic_description backend topic) =
    (Ok (describe s topic),
     trace (query_gemini backend (description_prompt topic)) ++
     [Print (JStr s); LogInfo topic (JStr (PyStr.slice_to 100 s))] ++
     (if PyStr.is_empty s then [LogWarning topic] else [])).
Proof.
  intros Hq. unfold run, get_topic_description, bind at 1.
  rewrite (appends_query_gemini backend _ []), Hq. simpl.
  unfold bind, emit, lift, ret, describe. simpl.
  destruct s; log_eq.
Qed.

Lemma get_topic_description_on_text backend topic s :
  result (query_gemini backend (description_prompt topic)) = Ok (JStr s) ->
  result (get_topic_description backend topic) = Ok (describe s topic).
Proof. intros H. unfold result. by rewrite (get_topic_description_run _ _ s H). Qed.

Lemma rstrip_keeps_head c rest :
  PyStr.is_space c = false -> PyStr.rstrip (String c rest) <> "".
Proof.
  intros Hc. simpl. destruct (PyStr.rstrip rest); [by rewrite Hc|done].
Qed.

Lemma strip_keeps_head c rest :
  PyStr.is_space c = false -> PyStr.strip (String c rest) <> "".
Proof.
  intros Hc. unfold PyStr.strip. cbn [PyStr.lstrip]. rewrite Hc.
  by apply rstrip_keeps_head.
Qed.

(** The fallback text survives the trimming: it starts with a letter. *)
Lemma describe_fallback_nonempty topic : describe "" topic <> "".
Proof.
  unfold describe, fallback. cbn [PyStr.is_empty String.append].
  by apply strip_keeps_head.
Qed.

(** A backend that answers every POST with 200 and the given text. *)
Definition answering (text : string) : script :=
  fun _ => Responds 200 (Ok (text_response text)).

(** C3. The code tests the text for emptiness before it trims it: when the
    backend returns the text " " for the topic "Recursion", the test sees a
    non-empty string, no fallback is substituted, and the trimmed
    description is the empty string. *)
Theorem blank_text_gives_empty_description :
  result (query_gemini (answering " ") (description_prompt "Recursion")) = Ok (JStr " ") /\
  result (get_topic_description (answering " ") "Recursion") = Ok "".
Proof. split; reflexivity. Qed.

(** ** The video path *)

Definition lacks_required_field (r : raw_record) : Prop :=
  field "url_suffix" r = None \/ field "title" r = None \/ field "duration" r = None.

(** The record made from a raw result that has the three required fields. *)
Inductive built_from (r : raw_record) : VideoContent -> Prop :=
| BuiltFrom suffix t d :
    field "url_suffix" r = Some suffix ->
    field "title" r = Some t ->
    field "duration" r = Some d ->
    built_from r {| url := "https://youtube.com" +:+ suffix;
                    title := t;
                    duration := d;
                    views := match field "views" r with Some v => v | None => "N/A" end |}.

Lemma video_of_run r log :
  video_of r log = (result (video_of r), log).
Proof.
  unfold result, run, video_of, bind, getitem, ret, raise.
  by repeat match goal with
            | |- context [match field ?k r with _ => _ end] => destruct (field k r)
            end.
Qed.

Lemma video_of_lacking r :
  lacks_required_field r -> result (video_of r) = Raise KeyError.
Proof.
  unfold result, run, video_of, bind, getitem, ret, raise.
  intros [H|[H|H]]; rewrite H;
    by repeat match goal with
              | |- context [match field ?k r with _ => _ end] => destruct (field k r)
              end.
Qed.

Lemma video_of_complete r :
  ~ lacks_required_field r -> exists v, result (video_of r) = Ok v /\ built_from r v.
Proof.
  unfold lacks_required_field. intros H.
  destruct (field "url_suffix" r) as [u|] eqn:Eu; [|tauto].
  destruct (field "title" r) as [t|] eqn:Et; [|tauto].
  destruct (field "duration" r) as [d|] eqn:Ed; [|tauto].
  eexists. split.
  - unfold result, run, video_of, bind, getitem, ret. rewrite Eu, Et, Ed. reflexivity.
  - unfold get_or. by constructor.
Qed.

Lemma comprehension_run results log :
  comprehension video_of results log = (result (comprehension video_of results), log).
Proof.
  revert log. induction results as [|r rest IH]; intros log; [done|].
  unfold result, run. simpl. unfold bind.
  rewrite (video_of_run r log), (video_of_run r []).
  destruct (result (video_of r)) as [v|e]; [|done].
  rewrite (IH log), (IH []). by destruct (result (comprehension video_of rest)).
Qed.

Lemma comprehension_cons r rest :
  result (comprehension video_of (r :: rest)) =
    match result (video_of r) with
    | Ok v =>
        match result (comprehension video_of rest) with
        | Ok vs => Ok (v :: vs)
        | Raise e => Raise e
        end
    | Raise e => Raise e
    end.
Proof.
  unfold result at 1, run. simpl. unfold bind.
  rewrite (video_of_run r []).
  destruct (result (video_of r)) as [v|e]; [|done].
  rewrite (comprehension_run rest []).
  by destruct (result (comprehension video_of rest)).
Qed.

(** One raw result without a required field makes the comprehension raise. *)
Lemma comprehension_lacking results :
  Exists lacks_required_field results ->
  exists e, result (comprehension video_of results) = Raise e.
Proof.
  induction 1 as [r rest H|r rest H IH]; rewrite comprehension_cons.
  - rewrite (video_of_lacking r H). eauto.
  - destruct (result (video_of r)); [|eauto].
    destruct IH as [e ->]. eauto.
Qed.

Lemma comprehension_complete results :
  Forall (fun r => ~ lacks_required_field r) results ->
  exists vs, result (comprehension video_of results) = Ok vs /\
             Forall2 built_from results vs.
Proof.
  induction 1 as [|r rest H _ IH].
  - exists []. by split.
  - rewrite comprehension_cons.
    destruct (video_of_complete r H) as (v & -> & Hv).
    destruct IH as (vs & -> & Hvs). exists (v :: vs). by split; [|constructor].
Qed.

(** The outcome of [get_videos] from that of the comprehension. *)
Lemma get_videos_run yt topic log :
  get_videos yt topic log =
    (Ok match yt with
        | Ok results =>
            match result (comprehension video_of results) with
            | Ok vs => vs
            | Raise _ => []
            end
        | Raise _ => []
        end,
     log ++ [Search ("tutorial " +:+ topic) 5]).
Proof.
  unfold get_videos, try_except, bind, emit, lift, ret.
  destruct yt as [results|e]; [|done].
  rewrite comprehension_run.
  by destruct (result (comprehension video_of results)).
Qed.

Lemma appends_get_videos yt topic : appends (get_videos yt topic).
Proof. intros log. unfold result, trace, run. by rewrite !get_videos_run. Qed.
#[local] Hint Resolve appends_get_videos : appends.

(** The video path never raises. *)
Lemma get_videos_never_raises yt topic :
  exists vs, result (get_videos yt topic) = Ok vs.
Proof. unfold result, run. rewrite get_videos_run. eauto. Qed.

(** C10. When one record of the search result lacks [url_suffix], [title]
    or [duration], the video list of the topic is empty: the KeyError
    leaves the comprehension and the handler returns [[]] for the whole
    list.  When no record lacks one, every record is converted, and only
    [views] has a fallback, the string N/A. *)
Theorem malformed_record_discards_all results topic :
  (Exists lacks_required_field results ->
   result (get_videos (Ok results) topic) = Ok []) /\
  (Forall (fun r => ~ lacks_required_field r) results ->
   exists vs, result (get_videos (Ok results) topic) = Ok vs /\
              Forall2 built_from results vs).
Proof.
  unfold result, run. rewrite get_videos_run. simpl. split.
  - intros H. by destruct (comprehension_lacking results H) as [e ->].
  - intros H. destruct (comprehension_complete results H) as (vs & -> & Hvs). eauto.
Qed.

Definition sample_results : list raw_record :=
  [ [("url_suffix", "/watch?v=1"); ("title", "Recursion basics"); ("duration", "9:59");
     ("views", "10 views")];
    [("url_suffix", "/watch?v=2"); ("duration", "3:00")] ].

(** The statement at a result list whose second record has no title. *)
Lemma malformed_record_discards_all_witness :
  result (get_videos (Ok sample_results) "Recursion") = Ok [].
Proof.
  apply (proj1 (malformed_record_discards_all sample_results "Recursion")).
  apply Exists_cons_tl, Exists_cons_hd. right. left. reflexivity.
Defined.

(** ** One topic *)

(** The videos [get_videos] returns for a lookup outcome. *)
Definition videos_found (yt : lookup) : list VideoContent :=
  match yt with
  | Ok results =>
      match result (comprehension video_of results) with
      | Ok vs => vs
      | Raise _ => []
      end
  | Raise _ => []
  end.

Lemma get_videos_result yt topic : result (get_videos yt topic) = Ok (videos_found yt).
Proof. unfold result, run. by rewrite get_videos_run. Qed.

Lemma appends_process_topic backend yt topic : appends (process_topic backend yt topic).
Proof. unfold process_topic, run_in_executor. auto 20 with appends. Qed.
#[local] Hint Resolve appends_process_topic : appends.

(** The enricher runs its two paths one after the other: the description
    path first, then the hand-over of the video search to the pool. *)
Lemma process_topic_run backend yt topic :
  run (process_topic backend yt topic) =
    match result (get_topic_description backend topic) with
    | Ok d =>
        (Ok {| topic := topic; description := d; videos := videos_found yt |},
         trace (get_topic_description backend topic) ++
         [Submit topic; Search ("tutorial " +:+ topic) 5])
    | Raise e => (Raise e, trace (get_topic_description backend topic))
    end.
Proof.
  unfold run, process_topic, bind at 1.
  rewrite (appends_get_topic_description backend topic []).
  destruct (result (get_topic_description backend topic)) as [d|e]; [|done].
  unfold run_in_executor, bind, emit, ret. rewrite get_videos_run. log_eq.
Qed.

Lemma process_topic_result backend yt topic :
  result (process_topic backend yt topic) =
    match result (get_topic_description backend topic) with
    | Ok d => Ok {| topic := topic; description := d; videos := videos_found yt |}
    | Raise e => Raise e
    end.
Proof.
  unfold result at 1. rewrite process_topic_run.
  by destruct (result (get_topic_description backend topic)).
Qed.

Definition res_map {A B} (f : A -> B) (r : res A) : res B :=
  match r with
  | Ok a => Ok (f a)
  | Raise e => Raise e
  end.

(** C8. When the video search raises, whatever the exception, [get_videos]
    returns the empty list; the record of the topic then carries that empty
    list next to the description the description path produced, the same
    description as under any other outcome of the search; the exception of
    the search does not leave the enricher. *)
Theorem video_failure_isolated backend topic e :
  result (get_videos (Raise e) topic) = Ok [] /\
  result (process_topic backend (Raise e) topic) =
    res_map (fun d => {| topic := topic; description := d; videos := [] |})
            (result (get_topic_description backend topic)) /\
  (forall yt,
     res_map description (result (process_topic backend (Raise e) topic)) =
     res_map description (result (process_topic backend yt topic))).
Proof.
  split; [by rewrite get_videos_result|]. split.
  - rewrite process_topic_result.
    by destruct (result (get_topic_description backend topic)).
  - intros yt. rewrite !process_topic_result.
    by destruct (result (get_topic_description backend topic)).
Qed.

(** The part of a log that precedes the first hand-over to the pool. *)
Fixpoint before_submit (log : list event) : list event :=
  match log with
  | [] => []
  | Submit _ :: _ => []
  | ev :: rest => ev :: before_submit rest
  end.

(** C9. The two paths of one topic do not run concurrently: the coroutine
    awaits the description before it hands the video search to the pool.
    With a backend that answers 429 to every request, the search for the
    topic "Recursion" is submitted only after the three requests of the
    description path and its 1 + 2 + 4 seconds of backoff. *)
Theorem video_search_waits_for_description :
  let log := trace (process_topic (rate_limited (fun _ => Raise JSONDecodeError))
                                  (Ok []) "Recursion") in
  posts (before_submit log) = 3 /\
  slept (before_submit log) = 7%Z /\
  log = before_submit log ++ [Submit "Recursion"; Search "tutorial Recursion" 5].
Proof. repeat split. Qed.

(** ** The topic parser *)

(** What one line of the response contributes. *)
Definition topic_of_line (line : string) : option string :=
  if PyStr.startswith line marker then
    let topic := PyStr.strip (PyStr.replace line marker "") in
    if PyStr.is_empty topic then None else Some topic
  else None.

(** The parser keeps the topics of the qualifying lines, in line order. *)
Lemma extract_loop_spec lines topics :
  extract_loop lines topics = topics ++ omap topic_of_line lines.
Proof.
  revert topics. induction lines as [|line rest IH]; intros topics; simpl.
  - by rewrite app_nil_r.
  - unfold topic_of_line. destruct (PyStr.startswith line marker); [|apply IH].
    destruct (PyStr.is_empty _); simpl; [apply IH|].
    by rewrite IH, <- app_assoc.
Qed.

Lemma extract_topics_spec topics_text :
  extract_topics topics_text = omap topic_of_line (PyStr.split topics_text PyStr.newline).
Proof. unfold extract_topics. by rewrite extract_loop_spec. Qed.

(** The example of the specification. *)
Lemma extract_topics_example :
  extract_topics "Topic: A
Note: B
Topic:  C " = ["A"; "C"].
Proof. reflexivity. Qed.

(** The remainder of a line after its first [String.length marker]
    characters: what follows the marker the line starts with. *)
Definition remainder_after_marker (line : string) : string :=
  String.substring (String.length marker)
                   (String.length line - String.length marker) line.

(** C5. The parser does not take the remainder of the line after the
    marker: [replace] deletes every occurrence of the marker.  On the line
    "Topic: A Topic: B" the remainder, trimmed, is "A Topic: B", and the
    parser yields "A  B". *)
Theorem inner_marker_deleted :
  PyStr.startswith "Topic: A Topic: B" marker = true /\
  PyStr.strip (remainder_after_marker "Topic: A Topic: B") = "A Topic: B" /\
  extract_topics "Topic: A Topic: B" = ["A  B"].
Proof. repeat split. Qed.

(** ** The fan-out *)

Section GatherFacts.
Context {A : Type}.
Implicit Types (vals : list A) (st : gathering A) (futs : list (future A)).

(** One completion, as [gather] folds it. *)
Definition gather_step (tasks : list (res A)) st (i : nat) : gathering A :=
  match tasks !! i with
  | Some r => done_callback st i r
  | None => st
  end.

Lemma gather_unfold (tasks : list (res A)) order :
  gather tasks order =
    outer (foldl (gather_step tasks) (gather_init (length tasks)) order).
Proof. reflexivity. Qed.

Lemma children_done_callback st i r :
  children (done_callback st i r) = <[i := Done r]> (children st).
Proof.
  unfold done_callback. destruct (outer st); [done|].
  destruct r; [|done]. by destruct (Nat.eqb _ _).
Qed.

Lemma nfinished_done_callback st i r :
  nfinished (done_callback st i r) = S (nfinished st).
Proof.
  unfold done_callback. destruct (outer st); [done|].
  destruct r; [|done]. by destruct (Nat.eqb _ _).
Qed.

Lemma outer_done_callback_ok st i a :
  outer st = None ->
  outer (done_callback st i (Ok a)) =
    if Nat.eqb (S (nfinished st)) (length (children st))
    then Ok <$> collect (<[i := Done (Ok a)]> (children st))
    else None.
Proof.
  intros H. unfold done_callback. rewrite H, length_insert.
  by destruct (Nat.eqb _ _).
Qed.

(** Once every child is done with a value, the walk over the children
    yields the values in the order of the children. *)
Lemma collect_done vals futs :
  length futs = length vals ->
  (forall j a, vals !! j = Some a -> futs !! j = Some (Done (Ok a))) ->
  collect futs = Some vals.
Proof.
  revert futs. induction vals as [|a vals IH]; intros [|f futs] Hlen H;
    try done.
  pose proof (H 0 a eq_refl) as H0. simpl in H0. injection H0 as ->.
  simpl. rewrite (IH futs); [done|by simplify_eq/=|].
  intros j b Hj. exact (H (S j) b Hj).
Qed.

(** The invariant of the fold: [rest] holds the children still to finish;
    the others are done with the value of their task; the outer future
    is set exactly when nothing remains. *)
Lemma gather_fold vals rest st :
  NoDup rest ->
  (forall i, i ∈ rest -> i < length vals) ->
  length (children st) = length vals ->
  nfinished st + length rest = length vals ->
  (forall j a, j ∉ rest -> vals !! j = Some a ->
               children st !! j = Some (Done (Ok a))) ->
  outer st = match rest with [] => Some (Ok vals) | _ => None end ->
  outer (foldl (gather_step (Ok <$> vals)) st rest) = Some (Ok vals).
Proof.
  revert st. induction rest as [|i rest IH]; intros st Hnd Hlt Hlen Hn Hdone Hout.
  - done.
  - apply NoDup_cons in Hnd as [Hi Hnd].
    assert (Hi' : i < length vals) by (apply Hlt; left).
    destruct (lookup_lt_is_Some_2 vals i Hi') as [a Ha].
    simpl. unfold gather_step at 2. rewrite list_lookup_fmap, Ha. simpl.
    simpl in Hn.
    assert (Hfuts : forall j b, j ∉ rest -> vals !! j = Some b ->
              <[i := Done (Ok a)]> (children st) !! j = Some (Done (Ok b))).
    { intros j b Hj Hb. destruct (decide (i = j)) as [->|Hne].
      - rewrite list_lookup_insert_eq by lia. congruence.
      - rewrite list_lookup_insert_ne by done.
        apply Hdone; [|done]. by apply not_elem_of_cons. }
    apply IH.
    + done.
    + intros j Hj. apply Hlt. by right.
    + by rewrite children_done_callback, length_insert.
    + rewrite nfinished_done_callback. simpl. lia.
    + intros j b Hj Hb. rewrite children_done_callback. by apply Hfuts.
    + rewrite outer_done_callback_ok by done. rewrite Hlen.
      destruct rest as [|i' rest'].
      * simpl in Hn. replace (S (nfinished st)) with (length vals) by lia.
        rewrite Nat.eqb_refl.
        rewrite (collect_done vals); [done|by rewrite length_insert|].
        intros j b Hb. apply Hfuts; [|done]. apply not_elem_of_nil.
      * simpl in Hn. destruct (Nat.eqb_spec (S (nfinished st)) (length vals)); [lia|done].
Qed.

(** When every task ends in a value, [gather] hands back the values in the
    order of the tasks, in whatever order the tasks finish. *)
Lemma gather_all_ok vals order :
  order ≡ₚ seq 0 (length vals) ->
  gather (Ok <$> vals) order = Some (Ok vals).
Proof.
  intros Hperm. rewrite gather_unfold, length_fmap.
  apply gather_fold.
  - rewrite Hperm. apply NoDup_seq.
  - intros i Hi. rewrite Hperm in Hi. apply elem_of_seq in Hi. lia.
  - simpl. apply length_replicate.
  - simpl. by rewrite Hperm, length_seq.
  - intros j a Hj Ha. exfalso. apply Hj. rewrite Hperm. apply elem_of_seq.
    apply lookup_lt_Some in Ha. lia.
  - apply Permutation_length in Hperm. rewrite length_seq in Hperm.
    destruct order, vals; simplify_eq/=; done.
Qed.

Lemma all_ok_fmap (tasks : list (res A)) :
  Forall (fun r => exists v, r = Ok v) tasks ->
  exists vals, tasks = Ok <$> vals.
Proof.
  induction 1 as [|r tasks [v ->] _ [vals ->]].
  - by exists [].
  - by exists (v :: vals).
Qed.

End GatherFacts.

(** ** The pipeline *)

(** The backend keeps to its interface for this call: what the client
    returns is a string. *)
Definition answers_text (backend : script) (prompt : string) : Prop :=
  exists s, result (query_gemini backend prompt) = Ok (JStr s).

(** The k-th POST is rate-limited or raises. *)
Definition attempt_fails (o : outcome) : Prop :=
  (exists e, o = Fails e) \/ (exists body, o = Responds 429 body).

(** The record of a topic whose two paths both degraded. *)
Definition degraded (t : string) : TopicContent :=
  {| topic := t; description := PyStr.strip (fallback t); videos := [] |}.

Lemma tasks_lookup w topics i :
  tasks w topics !! i =
    (fun t => result (process_topic (desc_backend w i) (video_lookup w i) t)) <$> topics !! i.
Proof. unfold tasks. by rewrite list_lookup_imap. Qed.

Lemma process_topic_on_text backend yt t :
  answers_text backend (description_prompt t) ->
  exists d, result (process_topic backend yt t) =
              Ok {| topic := t; description := d; videos := videos_found yt |}.
Proof.
  intros [s Hs]. rewrite process_topic_result.
  rewrite (get_topic_description_on_text _ _ s Hs). eauto.
Qed.

(** With a backend that returns strings every task ends in a record, and
    the records come back in the order of the topics. *)
Lemma enrich_all_ordered w topics :
  completion w ≡ₚ seq 0 (length topics) ->
  (forall i t, topics !! i = Some t ->
               answers_text (desc_backend w i) (description_prompt t)) ->
  exists out,
    enrich_all w topics = Some (Ok out) /\
    tasks w topics = Ok <$> out /\
    topic <$> out = topics.
Proof.
  intros Hperm Htext.
  destruct (all_ok_fmap (tasks w topics)) as [out Hout].
  { apply Forall_lookup. intros i r Hr. rewrite tasks_lookup in Hr.
    destruct (topics !! i) as [t|] eqn:Et; simplify_eq/=.
    destruct (process_topic_on_text (desc_backend w i) (video_lookup w i) t)
      as [d ->]; eauto. }
  assert (Hlen : length out = length topics).
  { rewrite <- (length_fmap Ok out), <- Hout. unfold tasks. apply length_imap. }
  exists out. split; [|split; [done|]].
  - unfold enrich_all. rewrite Hout. apply gather_all_ok. by rewrite Hlen.
  - apply list_eq. intros i. rewrite list_lookup_fmap.
    pose proof (f_equal (fun l => l !! i) Hout) as Hi. simpl in Hi.
    rewrite tasks_lookup, list_lookup_fmap in Hi.
    destruct (topics !! i) as [t|] eqn:Et, (out !! i) as [r|] eqn:Er; simplify_eq/=;
      try done.
    destruct (process_topic_on_text (desc_backend w i) (video_lookup w i) t)
      as [d Hd]; eauto.
    rewrite Hd in Hi. by simplify_eq.
Qed.

(** The description of a topic whose every request fails. *)
Lemma first_answer_all_fail backend items :
  (forall k, attempt_fails (backend k)) -> first_answer backend items = JStr "".
Proof.
  intros Hfail. induction items as [|k rest IH]; [done|]. simpl.
  replace (answer backend k) with (@None json); [done|].
  symmetry. apply answer_None. destruct (Hfail k) as [?|?]; eauto.
Qed.


(** C1. For every list of topics and every order in which the tasks may
    finish, [gather] returns the records in the order of the topics: the
    record at position i is the one task i produced, and its topic is the
    topic at position i. *)
Theorem gather_keeps_topic_order w topics :
  completion w ≡ₚ seq 0 (length topics) ->
  (forall i t, topics !! i = Some t ->
               answers_text (desc_backend w i) (description_prompt t)) ->
  exists out,
    enrich_all w topics = Some (Ok out) /\
    (forall i, tasks w topics !! i = Ok <$> out !! i) /\
    topic <$> out = topics.
Proof.
  intros Hperm Htext.
  destruct (enrich_all_ordered w topics Hperm Htext) as (out & Hrun & Htasks & Htopics).
  exists out. split; [done|]. split; [|done].
  intros i. by rewrite Htasks, list_lookup_fmap.
Qed.


(** [process_all] hands the parsed topics to the fan-out. *)
Lemma process_all_on_text w s :
  result (query_gemini (topics_backend w) (extraction_prompt (document w))) = Ok (JStr s) ->
  process_all w = enrich_all w (extract_topics s).
Proof. intros H. unfold process_all. by rewrite H. Qed.

(** A run in which the last topic finishes first and the first one last. *)
Definition sample_world : world :=
  {| document := "syllabus";
     topics_backend := answering "Topic: Recursion
Topic: Hash Tables
Topic: Graphs";
     desc_backend := fun i => answering ("text " +:+ String (ascii_of_nat (65 + i)) "");
     video_lookup := fun _ => Ok [];
     completion := [2; 1; 0] |}.

Definition sample_topics : list string := ["Recursion"; "Hash Tables"; "Graphs"].

Lemma gather_keeps_topic_order_witness :
  exists out,
    enrich_all sample_world sample_topics = Some (Ok out) /\
    (forall i, tasks sample_world sample_topics !! i = Ok <$> out !! i) /\
    topic <$> out = sample_topics.
Proof.
  apply (gather_keeps_topic_order sample_world sample_topics).
  - simpl. etrans; [apply Permutation_swap|].
    etrans; [apply Permutation_skip, Permutation_swap|]. apply Permutation_swap.
  - intros i t Hi. eexists. reflexivity.
Defined.


(** The scenario of the specification: two topics, two videos for the
    first and none for the second, the second task finishing first. *)
Definition scenario : world :=
  {| document := "syllabus";
     topics_backend := answering "Topic: Recursion
Topic: Hash Tables
";
     desc_backend := fun i => match i with O => answering "desc-R" | _ => answering "desc-H" end;
     video_lookup := fun i =>
       match i with
       | O => Ok [ [("url_suffix", "/watch?v=1"); ("title", "one"); ("duration", "1:00");
                    ("views", "7 views")];
                   [("url_suffix", "/watch?v=2"); ("title", "two"); ("duration", "2:00")] ]
       | _ => Ok []
       end;
     completion := [1; 0] |}.

Example scenario_result :
  process_all scenario =
    Some (Ok [ {| topic := "Recursion"; description := "desc-R";
                  videos := [ {| url := "https://youtube.com/watch?v=1"; title := "one";
                                 duration := "1:00"; views := "7 views" |};
                              {| url := "https://youtube.com/watch?v=2"; title := "two";
                                 duration := "2:00"; views := "N/A" |} ] |};
               {| topic := "Hash Tables"; description := "desc-H"; videos := [] |} ]).
Proof. reflexivity. Qed.

(** * Further properties of the code *)

(** ** More on the retrying client *)

Lemma slept_app l1 l2 : slept (l1 ++ l2) = (slept l1 + slept l2)%Z.
Proof.
  induction l1 as [|ev l1 IH]; [done|].
  simpl. destruct ev; rewrite ?IH; lia.
Qed.

Lemma slept_handler_trace k e :
  slept (handler_trace k e) =
    if Nat.ltb k (max_retries - 1) then (base_delay * 2 ^ Z.of_nat k)%Z else 0%Z.
Proof.
  unfold handler_trace. destruct (Nat.ltb k (max_retries - 1)); simpl; lia.
Qed.

(** An attempt sleeps at most its backoff delay. *)
Lemma slept_attempt_trace_bound backend prompt k :
  (0 <= slept (attempt_trace backend prompt k) <= base_delay * 2 ^ Z.of_nat k)%Z.
Proof.
  assert (Hpow : (0 <= base_delay * 2 ^ Z.of_nat k)%Z).
  { unfold base_delay. pose proof (Z.pow_nonneg 2 (Z.of_nat k)). lia. }
  assert (Hh : forall e, (0 <= slept (handler_trace k e) <= base_delay * 2 ^ Z.of_nat k)%Z).
  { intros e. rewrite slept_handler_trace. destruct (Nat.ltb _ _); lia. }
  unfold attempt_trace. change (slept (Post prompt k :: ?l)) with (slept l).
  destruct (backend k) as [e|status body]; [apply Hh|].
  destruct (Z.eqb status 429); [simpl; lia|].
  destruct body as [data|e]; [|apply Hh].
  destruct (result (extract_text data)); [simpl; lia|apply Hh].
Qed.

Lemma loop_trace_cons backend prompt k rest :
  loop_trace backend prompt (k :: rest) =
    attempt_trace backend prompt k ++
    match answer backend k with
    | Some _ => []
    | None => loop_trace backend prompt rest
    end.
Proof.
  unfold loop_trace. simpl. destruct (answer backend k); simpl; [|done].
  by rewrite app_nil_r.
Qed.

(** The POST raised, or the body of a response other than 429 did not
    parse. *)
Definition attempt_raises (o : outcome) : Prop :=
  (exists e, o = Fails e) \/
  (exists status e, status <> 429%Z /\ o = Responds status (Raise e)).

Lemma attempt_raises_trace backend prompt k :
  attempt_raises (backend k) ->
  answer backend k = None /\
  exists e, attempt_trace backend prompt k = Post prompt k :: handler_trace k e.
Proof.
  unfold answer, attempt_trace.
  intros [[e ->]|(status & e & Hne & ->)]; [eauto|].
  destruct (Z.eqb_spec status 429); [done|eauto].
Qed.

(** When every attempt raises, the client sleeps after the first and the
    second attempt only: 1 + 2 seconds, against 1 + 2 + 4 when every
    attempt is rate-limited. *)
Theorem query_gemini_error_backoff backend prompt :
  (forall k, k < max_retries -> attempt_raises (backend k)) ->
  result (query_gemini backend prompt) = Ok (JStr "") /\
  posts (trace (query_gemini backend prompt)) = 3 /\
  slept (trace (query_gemini backend prompt)) = (base_delay * (1 + 2))%Z.
Proof.
  intros H.
  destruct (attempt_raises_trace backend prompt 0) as (A0 & e0 & T0);
    [apply H; unfold max_retries; lia|].
  destruct (attempt_raises_trace backend prompt 1) as (A1 & e1 & T1);
    [apply H; unfold max_retries; lia|].
  destruct (attempt_raises_trace backend prompt 2) as (A2 & e2 & T2);
    [apply H; unfold max_retries; lia|].
  rewrite query_gemini_result, query_gemini_trace.
  unfold max_retries. cbn [seq].
  rewrite !loop_trace_cons. cbn [first_answer].
  rewrite A0, A1, A2, T0, T1, T2. repeat split.
Qed.

Lemma query_gemini_error_backoff_witness :
  slept (trace (query_gemini (fun _ => Fails ClientError) "prompt")) = 3%Z.
Proof.
  apply (query_gemini_error_backoff (fun _ => Fails ClientError) "prompt").
  intros k _. left. eexists. reflexivity.
Defined.

(** Whatever the backend does, one call sleeps between 0 and 7 seconds. *)
Theorem query_gemini_sleep_bound backend prompt :
  (0 <= slept (trace (query_gemini backend prompt)) <= base_delay * (1 + 2 + 4))%Z.
Proof.
  rewrite query_gemini_trace. unfold max_retries. cbn [seq].
  rewrite !loop_trace_cons.
  assert (H0 : (0 <= slept (attempt_trace backend prompt 0) <= 1)%Z)
    by apply slept_attempt_trace_bound.
  assert (H1 : (0 <= slept (attempt_trace backend prompt 1) <= 2)%Z)
    by apply slept_attempt_trace_bound.
  assert (H2 : (0 <= slept (attempt_trace backend prompt 2) <= 4)%Z)
    by apply slept_attempt_trace_bound.
  change (loop_trace backend prompt []) with (@nil event).
  change (base_delay * (1 + 2 + 4))%Z with 7%Z.
  destruct (answer backend 0), (answer backend 1), (answer backend 2);
    rewrite ?slept_app; change (slept []) with 0%Z; lia.
Qed.

(** The first attempt with a usable response decides the call: its text is
    returned and no further request is sent. *)
Theorem first_usable_answer_wins backend prompt k status data text :
  k < max_retries ->
  (forall j, j < k -> answer backend j = None) ->
  backend k = Responds status (Ok data) ->
  status <> 429%Z ->
  result (extract_text data) = Ok text ->
  result (query_gemini backend prompt) = Ok text /\
  posts (trace (query_gemini backend prompt)) = S k.
Proof.
  intros Hk Hbefore Hb Hstatus Htext.
  assert (Hans : answer backend k = Some text).
  { apply answer_Some. eauto. }
  rewrite query_gemini_result, query_gemini_trace, posts_loop_trace.
  unfold max_retries in *. cbn [seq first_answer attempted].
  destruct k as [|[|[|k]]]; [| | |lia].
  - by rewrite Hans.
  - rewrite (Hbefore 0) by lia. by rewrite Hans.
  - rewrite (Hbefore 0), (Hbefore 1) by lia. by rewrite Hans.
Qed.

Definition limited_then_text : script :=
  fun k =>
    match k with
    | O => Responds 429 (Raise JSONDecodeError)
    | _ => Responds 200 (Ok (text_response "desc"))
    end.

Lemma first_usable_answer_wins_witness :
  result (query_gemini limited_then_text "prompt") = Ok (JStr "desc") /\
  posts (trace (query_gemini limited_then_text "prompt")) = 2.
Proof.
  apply (first_usable_answer_wins limited_then_text "prompt" 1 200
           (text_response "desc") (JStr "desc")).
  - unfold max_retries. lia.
  - intros j Hj. assert (j = 0) as -> by lia. reflexivity.
  - reflexivity.
  - lia.
  - reflexivity.
Defined.

(** Two outcomes that differ at most in a status that is 429 in neither
    or in both. *)
Definition same_but_status (o1 o2 : outcome) : Prop :=
  match o1, o2 with
  | Fails e1, Fails e2 => e1 = e2
  | Responds s1 body1, Responds s2 body2 =>
      body1 = body2 /\ (s1 = 429%Z <-> s2 = 429%Z)
  | _, _ => False
  end.

Lemma same_but_status_attempt b1 b2 prompt k :
  same_but_status (b1 k) (b2 k) ->
  answer b1 k = answer b2 k /\
  attempt_trace b1 prompt k = attempt_trace b2 prompt k.
Proof.
  unfold same_but_status, answer, attempt_trace.
  destruct (b1 k) as [e1|s1 body1], (b2 k) as [e2|s2 body2]; try done.
  - by intros ->.
  - intros [-> Hs].
    destruct (Z.eqb_spec s1 429), (Z.eqb_spec s2 429); tauto.
Qed.

(** The client looks at the status only to tell 429 from the rest: a
    response with status 500, 404 or 200 is handled by its body alone. *)
Theorem status_only_compared_with_429 b1 b2 prompt :
  (forall k, k < max_retries -> same_but_status (b1 k) (b2 k)) ->
  run (query_gemini b1 prompt) = run (query_gemini b2 prompt).
Proof.
  intros H. unfold run. rewrite !query_gemini_run.
  unfold max_retries in *. cbn [seq].
  destruct (same_but_status_attempt b1 b2 prompt 0) as [A0 T0]; [apply H; lia|].
  destruct (same_but_status_attempt b1 b2 prompt 1) as [A1 T1]; [apply H; lia|].
  destruct (same_but_status_attempt b1 b2 prompt 2) as [A2 T2]; [apply H; lia|].
  rewrite !loop_trace_cons. cbn [first_answer].
  by rewrite A0, A1, A2, T0, T1, T2.
Qed.

(** A server error whose body is a JSON object without candidates is taken
    for an answer, like the same body under status 200: the empty string
    after one request. *)
Lemma status_only_compared_with_429_witness :
  run (query_gemini (fun _ => Responds 500 (Ok (JObj [("error", JStr "internal")]))) "prompt") =
  run (query_gemini (fun _ => Responds 200 (Ok (JObj [("error", JStr "internal")]))) "prompt").
Proof.
  apply status_only_compared_with_429.
  intros k _. simpl. split; [reflexivity|]. split; intros H; discriminate H.
Defined.

(** The text path succeeds in exactly two situations: the text is in place,
    or a key on the way is missing and the defaults lead to the empty
    string.  Every other body (a body that is not an object, a candidates
    or parts value that is not a non-empty list, a candidate, content or
    part that is not an object) makes it raise. *)
Theorem extract_text_ok_iff data v :
  result (extract_text data) = Ok v <->
  well_shaped v data \/ (missing_key data /\ v = JStr "").
Proof.
  split.
  - unfold extract_text, result, run, bind, lift.
    destruct data as [| | | |?|fields]; try done. simpl.
    destruct (Py.dict_find "candidates" fields) as [c|] eqn:Ec; simpl.
    2:{ intros [= <-]. right. split; [by constructor 1|done]. }
    destruct c as [| | |s|[|cand l]|?]; try done; simpl.
    { by destruct s. }
    destruct cand as [| | | |?|cf]; try done. simpl.
    destruct (Py.dict_find "content" cf) as [content|] eqn:Econtent; simpl.
    2:{ intros [= <-]. right. split; [by econstructor 2|done]. }
    destruct content as [| | | |?|kf]; try done. simpl.
    destruct (Py.dict_find "parts" kf) as [parts|] eqn:Eparts; simpl.
    2:{ intros [= <-]. right. split; [by econstructor 3|done]. }
    destruct parts as [| | |s|[|part l']|?]; try done; simpl.
    { by destruct s. }
    destruct part as [| | | |?|pf]; try done. simpl.
    destruct (Py.dict_find "text" pf) as [t|] eqn:Et; simpl.
    + intros [= <-]. left. by econstructor.
    + intros [= <-]. right. split; [by econstructor 4|done].
  - intros [H|[H ->]].
    + by apply extract_text_well_shaped.
    + by apply extract_text_missing_key.
Qed.

(** ** Trimming *)

(** Every character of the string is whitespace. *)
Fixpoint all_space (s : string) : bool :=
  match s with
  | EmptyString => true
  | String c rest => PyStr.is_space c && all_space rest
  end.

Lemma lstrip_empty_iff s : PyStr.lstrip s = "" <-> all_space s = true.
Proof.
  induction s as [|c rest IH]; simpl; [done|].
  destruct (PyStr.is_space c); simpl; [done|]. split; discriminate.
Qed.

Lemma rstrip_empty_iff s : PyStr.rstrip s = "" <-> all_space s = true.
Proof.
  induction s as [|c rest IH]; simpl; [done|].
  destruct (PyStr.rstrip rest) as [|c' kept].
  - destruct (PyStr.is_space c); simpl; [tauto|]. split; discriminate.
  - split; [discriminate|]. intros H. apply andb_true_iff in H as [_ H].
    apply IH in H. discriminate H.
Qed.

Lemma all_space_lstrip s : all_space (PyStr.lstrip s) = all_space s.
Proof.
  induction s as [|c rest IH]; simpl; [done|].
  destruct (PyStr.is_space c) eqn:Ec; simpl; [done|]. by rewrite Ec.
Qed.

Lemma strip_empty_iff s : PyStr.strip s = "" <-> all_space s = true.
Proof. unfold PyStr.strip. by rewrite rstrip_empty_iff, all_space_lstrip. Qed.

Lemma rstrip_cons_keep c rest :
  PyStr.is_space c = false ->
  PyStr.rstrip (String c rest) = String c (PyStr.rstrip rest).
Proof. intros Hc. simpl. destruct (PyStr.rstrip rest); [by rewrite Hc|done]. Qed.

Lemma rstrip_cons_nonempty c rest :
  PyStr.rstrip rest <> "" ->
  PyStr.rstrip (String c rest) = String c (PyStr.rstrip rest).
Proof. intros H. simpl. by destruct (PyStr.rstrip rest). Qed.

Lemma rstrip_idem s : PyStr.rstrip (PyStr.rstrip s) = PyStr.rstrip s.
Proof.
  induction s as [|c rest IH]; [done|].
  destruct (PyStr.rstrip rest) as [|c' kept] eqn:E.
  - simpl. rewrite E. destruct (PyStr.is_space c) eqn:Ec; [done|].
    simpl. by rewrite Ec.
  - rewrite rstrip_cons_nonempty by (by rewrite E). rewrite E.
    rewrite rstrip_cons_nonempty; by rewrite IH.
Qed.

Lemma lstrip_head s c rest :
  PyStr.lstrip s = String c rest -> PyStr.is_space c = false.
Proof.
  induction s as [|c' s IH]; simpl; [done|].
  destruct (PyStr.is_space c') eqn:E; [done|]. by intros [= <- _].
Qed.

(** A trimmed string is a fixed point of [strip]. *)
Lemma strip_idem s : PyStr.strip (PyStr.strip s) = PyStr.strip s.
Proof.
  unfold PyStr.strip. destruct (PyStr.lstrip s) as [|c rest] eqn:E; [done|].
  pose proof (lstrip_head _ _ _ E) as Hc.
  rewrite (rstrip_cons_keep c rest Hc). simpl PyStr.lstrip. rewrite Hc.
  by rewrite (rstrip_cons_keep _ _ Hc), rstrip_idem.
Qed.

Lemma append_nonempty_r (a b : string) : b <> "" -> a +:+ b <> "".
Proof. by destruct a, b. Qed.

Lemma rstrip_append a b :
  PyStr.rstrip b <> "" -> PyStr.rstrip (a +:+ b) = a +:+ PyStr.rstrip b.
Proof.
  intros Hb. induction a as [|c a IH]; [done|].
  change (PyStr.rstrip (String c (a +:+ b)) = String c (a +:+ PyStr.rstrip b)).
  rewrite rstrip_cons_nonempty; rewrite IH; [done|].
  by apply append_nonempty_r.
Qed.

(** On a trimmed, non-empty topic the fallback text is left as it is. *)
Lemma strip_fallback t :
  t <> "" -> PyStr.strip t = t -> PyStr.strip (fallback t) = fallback t.
Proof.
  intros Hne Ht.
  assert (Hr : PyStr.rstrip t = t).
  { rewrite <- Ht at 1. unfold PyStr.strip. by rewrite rstrip_idem. }
  unfold PyStr.strip, fallback.
  change (PyStr.lstrip ("Description generation failed for " +:+ t))
    with ("Description generation failed for " +:+ t).
  rewrite rstrip_append; rewrite Hr; done.
Qed.

(** ** More on the description path *)

(** The outcome of the description path from the value the client
    returned, a string or not. *)
Lemma get_topic_description_result backend topic v :
  result (query_gemini backend (description_prompt topic)) = Ok v ->
  result (get_topic_description backend topic) =
    match Py.slice100 v with
    | Ok _ => Py.strip (if Py.falsy v then JStr (fallback topic) else v)
    | Raise e => Raise e
    end.
Proof.
  intros Hq. unfold result at 1, run, get_topic_description, bind at 1.
  rewrite (appends_query_gemini backend _ []), Hq. simpl.
  unfold bind, emit, lift, ret.
  destruct (Py.slice100 v); [|done]. by destruct (Py.falsy v).
Qed.

(** For a text [s] from the client the description is the trimmed text, or
    the trimmed fallback when [s] is empty; it is the empty string exactly
    when [s] is non-empty and made of whitespace only. *)
Theorem description_of_text backend topic s :
  result (query_gemini backend (description_prompt topic)) = Ok (JStr s) ->
  result (get_topic_description backend topic) =
    Ok (PyStr.strip (if PyStr.is_empty s then fallback topic else s)) /\
  (result (get_topic_description backend topic) = Ok "" <->
   s <> "" /\ all_space s = true).
Proof.
  intros Hq. rewrite (get_topic_description_on_text _ _ s Hq). unfold describe.
  split; [done|]. destruct s as [|c rest]; simpl PyStr.is_empty; cbv iota.
  - split; [|by intros [? _]].
    intros [= H]. by apply describe_fallback_nonempty in H.
  - split.
    + intros [= H]. by apply strip_empty_iff in H.
    + intros [_ H]. apply strip_empty_iff in H. by rewrite H.
Qed.

Lemma description_of_text_witness :
  result (get_topic_description (answering "  desc-R ") "Recursion") = Ok "desc-R".
Proof.
  apply (description_of_text (answering "  desc-R ") "Recursion" "  desc-R ").
  reflexivity.
Defined.

(** When the client returns something that is not a string, the
    description path raises: TypeError on null, a boolean or a number
    (they cannot be sliced), AttributeError on a non-empty list (it has no
    strip), and some exception on an object (which one depends on the
    interpreter).  The empty list alone passes, as a failed generation. *)
Theorem description_of_non_text backend topic v :
  result (query_gemini backend (description_prompt topic)) = Ok v ->
  match v with
  | JStr _ => True
  | JArr [] => result (get_topic_description backend topic) = Ok (PyStr.strip (fallback topic))
  | JArr (_ :: _) => result (get_topic_description backend topic) = Raise AttributeError
  | JNull | JBool _ | JNum _ =>
      result (get_topic_description backend topic) = Raise TypeError
  | JObj _ => exists e, result (get_topic_description backend topic) = Raise e
  end.
Proof.
  intros Hq. rewrite (get_topic_description_result _ _ v Hq).
  destruct v as [| | | |[|x l]|]; try done. simpl. eauto.
Qed.

(** A backend whose text field is null. *)
Definition null_text : script :=
  fun _ => Responds 200 (Ok (JObj [("candidates",
    JArr [JObj [("content", JObj [("parts", JArr [JObj [("text", JNull)]])])]])])).

Lemma description_of_non_text_witness :
  result (get_topic_description null_text "Recursion") = Raise TypeError.
Proof.
  apply (description_of_non_text null_text "Recursion" JNull). reflexivity.
Defined.

(** ** More on the topic parser *)

Lemma topic_of_line_trimmed line t :
  topic_of_line line = Some t -> t <> "" /\ PyStr.strip t = t.
Proof.
  unfold topic_of_line. destruct (PyStr.startswith line marker); [|done].
  remember (PyStr.strip (PyStr.replace line marker "")) as t0 eqn:Et0.
  cbv zeta. destruct (PyStr.is_empty t0) eqn:E; [done|]. intros [= <-]. split.
  - by destruct t0.
  - rewrite Et0. apply strip_idem.
Qed.

(** Every topic the parser yields is non-empty and carries no whitespace at
    either end. *)
Theorem extracted_topics_trimmed topics_text t :
  t ∈ extract_topics topics_text -> t <> "" /\ PyStr.strip t = t.
Proof.
  rewrite extract_topics_spec. intros H.
  apply list_elem_of_omap in H as (line & _ & Hline).
  by apply topic_of_line_trimmed in Hline.
Qed.

Lemma extracted_topics_trimmed_witness :
  "C" <> "" /\ PyStr.strip "C" = "C".
Proof.
  apply (extracted_topics_trimmed "Topic: A
Topic:  C " "C").
  apply list_elem_of_In. right. left. reflexivity.
Defined.

Lemma split_nonempty s sep : PyStr.split s sep <> [].
Proof.
  induction s as [|c rest IH]; simpl; [done|].
  destruct (Ascii.eqb c sep); [done|]. by destruct (PyStr.split rest sep).
Qed.

Lemma split_append a b sep :
  PyStr.split (a +:+ String sep b) sep = PyStr.split a sep ++ PyStr.split b sep.
Proof.
  induction a as [|c a IH].
  - simpl. by rewrite Ascii.eqb_refl.
  - change (String c a +:+ String sep b) with (String c (a +:+ String sep b)).
    simpl. rewrite IH. destruct (Ascii.eqb c sep); [done|].
    pose proof (split_nonempty a sep).
    by destruct (PyStr.split a sep).
Qed.

(** The parser works line by line: the topics of two responses joined by a
    newline are the topics of the first followed by those of the second;
    nothing is merged, reordered or deduplicated across lines. *)
Theorem extract_topics_append a b :
  extract_topics (a +:+ String PyStr.newline b) = extract_topics a ++ extract_topics b.
Proof. by rewrite !extract_topics_spec, split_append, omap_app. Qed.








(** A topic that came out of the parser and whose description requests all
    fail gets the fallback text exactly, its name unchanged in it. *)
Theorem parsed_topic_fallback topics_text backend t :
  t ∈ extract_topics topics_text ->
  (forall k, attempt_fails (backend k)) ->
  result (get_topic_description backend t) =
    Ok ("Description generation failed for " +:+ t).
Proof.
  intros Ht Hfail. apply extracted_topics_trimmed in Ht as [Hne Hstrip].
  rewrite (get_topic_description_on_text _ _ "").
  - unfold describe. simpl PyStr.is_empty. cbv iota.
    by rewrite strip_fallback.
  - by rewrite query_gemini_result, first_answer_all_fail.
Qed.

Lemma parsed_topic_fallback_witness :
  result (get_topic_description (fun _ => Fails TimeoutError) "Graphs") =
    Ok "Description generation failed for Graphs".
Proof.
  apply (parsed_topic_fallback "Note
Topic: Graphs" (fun _ => Fails TimeoutError) "Graphs").
  - apply list_elem_of_In. left. reflexivity.
  - intros k. left. eexists. reflexivity.
Defined.

(** ** More on the fan-out *)

Section GatherFailure.
Context {A : Type}.
Implicit Types (st : gathering A) (tasks : list (res A)).

(** Once the outer future is done, later completions leave it alone. *)
Lemma outer_settled tasks st order o :
  outer st = Some o -> outer (foldl (gather_step tasks) st order) = Some o.
Proof.
  revert st. induction order as [|i order IH]; intros st H; [done|].
  simpl. apply IH. unfold gather_step. destruct (tasks !! i) as [r|]; [|done].
  unfold done_callback. by rewrite H.
Qed.

(** While fewer children have finished than there are, and all of them
    with a value, the outer future stays pending. *)
Lemma outer_pending tasks st pre :
  outer st = None ->
  nfinished st + length pre < length (children st) ->
  (forall j, j ∈ pre -> exists a, tasks !! j = Some (Ok a)) ->
  let st' := foldl (gather_step tasks) st pre in
  outer st' = None /\ length (children st') = length (children st).
Proof.
  revert st. induction pre as [|j pre IH]; intros st Hout Hn Hok; [done|].
  simpl in *. destruct (Hok j) as [a Ha]; [left|].
  assert (Hstep : gather_step tasks st j = done_callback st j (Ok a)).
  { unfold gather_step. by rewrite Ha. }
  rewrite Hstep.
  destruct (IH (done_callback st j (Ok a))) as [H1 H2].
  - rewrite outer_done_callback_ok by done.
    destruct (Nat.eqb_spec (S (nfinished st)) (length (children st))); [lia|done].
  - rewrite nfinished_done_callback, children_done_callback, length_insert. lia.
  - intros i Hi. apply Hok. by right.
  - split; [done|]. by rewrite H2, children_done_callback, length_insert.
Qed.

(** The first task to finish with an exception decides the outcome of
    [gather]: that exception, whatever finished before and whatever
    finishes later. *)
Lemma gather_first_raise tasks pre i post e :
  length pre < length tasks ->
  (forall j, j ∈ pre -> exists a, tasks !! j = Some (Ok a)) ->
  tasks !! i = Some (Raise e) ->
  gather tasks (pre ++ i :: post) = Some (Raise e).
Proof.
  intros Hlen Hok Hi. rewrite gather_unfold, foldl_app. simpl.
  destruct (outer_pending tasks (gather_init (length tasks)) pre) as [Hout _].
  - simpl. destruct (length tasks); [lia|done].
  - simpl. rewrite length_replicate. lia.
  - done.
  - apply outer_settled. unfold gather_step at 1. rewrite Hi.
    unfold done_callback. by rewrite Hout.
Qed.

(** With no task at all the result is the empty list, at once. *)
Lemma gather_nil order : gather (@nil (res A)) order = Some (Ok []).
Proof. rewrite gather_unfold. by apply outer_settled. Qed.

End GatherFailure.

(** When a task raises, [process_all] raises with it: the exception of the
    task that fails first reaches the caller, and the records of the
    tasks that had finished are not returned. *)
Theorem first_failing_task_aborts_batch w topics pre i post e :
  completion w = pre ++ i :: post ->
  completion w ≡ₚ seq 0 (length topics) ->
  (forall j, j ∈ pre -> exists r, tasks w topics !! j = Some (Ok r)) ->
  tasks w topics !! i = Some (Raise e) ->
  enrich_all w topics = Some (Raise e).
Proof.
  intros Hsplit Hperm Hok Hi. unfold enrich_all. rewrite Hsplit.
  apply gather_first_raise; [|done|done].
  apply Permutation_length in Hperm.
  rewrite Hsplit, length_app, length_seq in Hperm. simpl in Hperm.
  unfold tasks. rewrite length_imap. lia.
Qed.

(** Two topics; the text of the second description is null, and its task
    finishes after the first one. *)
Definition null_second_world : world :=
  {| document := "syllabus";
     topics_backend := answering "Topic: Recursion
Topic: Graphs";
     desc_backend := fun i => match i with O => answering "desc-R" | _ => null_text end;
     video_lookup := fun _ => Ok [];
     completion := [0; 1] |}.

Lemma first_failing_task_aborts_batch_witness :
  enrich_all null_second_world ["Recursion"; "Graphs"] = Some (Raise TypeError).
Proof.
  apply (first_failing_task_aborts_batch null_second_world ["Recursion"; "Graphs"]
           [0] 1 [] TypeError).
  - reflexivity.
  - reflexivity.
  - intros j Hj. apply list_elem_of_In in Hj. destruct Hj as [<-|[]].
    eexists. reflexivity.
  - reflexivity.
Defined.

(** When every request of the extraction call fails, [process_all]
    returns the empty list: no topic, no task, no exception. *)
Theorem failed_extraction_gives_no_topics w :
  (forall k, attempt_fails (topics_backend w k)) ->
  process_all w = Some (Ok []).
Proof.
  intros Hfail. unfold process_all.
  rewrite query_gemini_result, first_answer_all_fail by done.
  simpl. unfold enrich_all, tasks. simpl. apply gather_nil.
Qed.

(** A run in which the extraction call itself is rate-limited throughout. *)
Definition silent_world : world :=
  {| document := "syllabus";
     topics_backend := rate_limited (fun _ => Raise JSONDecodeError);
     desc_backend := fun _ => answering "unused";
     video_lookup := fun _ => Ok [];
     completion := [] |}.

Lemma failed_extraction_gives_no_topics_witness :
  process_all silent_world = Some (Ok []).
Proof.
  apply failed_extraction_gives_no_topics.
  intros k. right. eexists. reflexivity.
Defined.

Lemma first_raise_split {A} (tasks : list (res A)) order i0 e0 :
  (forall j, j ∈ order -> j < length tasks) ->
  i0 ∈ order ->
  tasks !! i0 = Some (Raise e0) ->
  exists pre i post e,
    order = pre ++ i :: post /\
    (forall j, j ∈ pre -> exists a, tasks !! j = Some (Ok a)) /\
    tasks !! i = Some (Raise e).
Proof.
  induction order as [|j rest IH]; intros Hlt Hin H0.
  - by apply elem_of_nil in Hin.
  - destruct (lookup_lt_is_Some_2 tasks j) as [[a|e] Hj]; [apply Hlt; left| |].
    + apply elem_of_cons in Hin as [->|Hin]; [congruence|].
      destruct IH as (pre & i & post & e & -> & Hpre & Hi); [|done|done|].
      { intros k Hk. apply Hlt. by right. }
      exists (j :: pre), i, post, e. split; [done|]. split; [|done].
      intros k Hk. apply elem_of_cons in Hk as [->|Hk]; eauto.
    + exists [], j, rest, e. split; [done|]. split; [|done].
      intros k Hk. by apply elem_of_nil in Hk.
Qed.

(** [process_all] never returns a partial list: as soon as one task raises,
    in whatever order the tasks finish, the whole call raises the
    exception of one of the failing tasks. *)
Theorem any_failing_task_aborts_batch w topics i0 e0 :
  completion w ≡ₚ seq 0 (length topics) ->
  tasks w topics !! i0 = Some (Raise e0) ->
  exists i e,
    tasks w topics !! i = Some (Raise e) /\
    enrich_all w topics = Some (Raise e).
Proof.
  intros Hperm H0.
  assert (Hlen : length (tasks w topics) = length topics).
  { unfold tasks. apply length_imap. }
  destruct (first_raise_split (tasks w topics) (completion w) i0 e0)
    as (pre & i & post & e & Hsplit & Hpre & Hi).
  - intros j Hj. rewrite Hperm in Hj. apply elem_of_seq in Hj. lia.
  - rewrite Hperm. apply elem_of_seq. apply lookup_lt_Some in H0. lia.
  - done.
  - exists i, e. split; [done|]. unfold enrich_all. rewrite Hsplit.
    apply gather_first_raise; [|done|done].
    apply Permutation_length in Hperm.
    rewrite Hsplit, length_app, length_seq in Hperm. simpl in Hperm. lia.
Qed.

Lemma any_failing_task_aborts_batch_witness :
  exists i e,
    tasks null_second_world ["Recursion"; "Graphs"] !! i = Some (Raise e) /\
    enrich_all null_second_world ["Recursion"; "Graphs"] = Some (Raise e).
Proof.
  apply (any_failing_task_aborts_batch null_second_world ["Recursion"; "Graphs"]
           1 TypeError); reflexivity.
Defined.

(** ** More on the enricher *)

(** The enricher hands the video search to the pool once, with the query
    "tutorial " followed by the topic and at most 5 results, and only after
    the last effect of the description path; when the description path
    raises, no search is made. *)
Theorem enricher_runs_paths_in_sequence backend yt topic :
  trace (process_topic backend yt topic) =
    trace (get_topic_description backend topic) ++
    match result (get_topic_description backend topic) with
    | Ok _ => [Submit topic; Search ("tutorial " +:+ topic) 5]
    | Raise _ => []
    end.
Proof.
  unfold trace at 1. rewrite process_topic_run.
  destruct (result (get_topic_description backend topic)); simpl; [done|].
  by rewrite app_nil_r.
Qed.

(** ** Persistence and entry point *)

Lemma video_vars_inj v1 v2 : video_vars v1 = video_vars v2 -> v1 = v2.
Proof. destruct v1, v2. unfold video_vars. simpl. by intros [= -> -> -> ->]. Qed.

Lemma fmap_inj_list {A B} (f : A -> B) :
  (forall x y, f x = f y -> x = y) ->
  forall l1 l2 : list A, f <$> l1 = f <$> l2 -> l1 = l2.
Proof.
  intros Hf. induction l1 as [|x l1 IH]; intros [|y l2]; try done.
  simpl. intros [= Hxy Hl]. f_equal; [by apply Hf|by apply IH].
Qed.

Lemma topic_entry_inj r1 r2 : topic_entry r1 = topic_entry r2 -> r1 = r2.
Proof.
  destruct r1 as [t1 d1 vs1], r2 as [t2 d2 vs2]. unfold topic_entry. simpl.
  intros [= -> -> Hvs]. f_equal. by apply (fmap_inj_list video_vars video_vars_inj).
Qed.

(** What [save_results] writes determines the results: the value handed to
    [json.dump] keeps every record, every field and their order, so two
    result lists with the same payload are equal; the file is the output
    path with the suffix .json. *)
Theorem save_results_injective results1 results2 path1 path2 :
  payload (save_results results1 path1) = payload (save_results results2 path2) ->
  results1 = results2 /\
  path (save_results results1 path1) = path1 +:+ ".json".
Proof.
  unfold save_results. simpl. intros [= H]. split; [|done].
  by apply (fmap_inj_list topic_entry topic_entry_inj).
Qed.

Lemma save_results_injective_witness :
  [degraded "Graphs"] = [degraded "Graphs"] /\
  path (save_results [degraded "Graphs"] "out") = "out.json".
Proof.
  apply (save_results_injective [degraded "Graphs"] [degraded "Graphs"] "out" "other").
  reflexivity.
Defined.

(** [main] writes the file exactly when at least one topic was extracted.
    With a backend that returns strings: no topic, and it logs the
    warning and writes nothing; otherwise it saves one record per topic,
    in the order of the topics, to syllabus_content.json. *)
Theorem main_saves_or_warns w s :
  result (query_gemini (topics_backend w) (extraction_prompt (document w))) = Ok (JStr s) ->
  completion w ≡ₚ seq 0 (length (extract_topics s)) ->
  (forall i t, extract_topics s !! i = Some t ->
               answers_text (desc_backend w i) (description_prompt t)) ->
  (extract_topics s = [] -> main w = Some (Warned "No results generated")) /\
  (extract_topics s <> [] ->
   exists results,
     main w = Some (Saved (save_results results "syllabus_content")) /\
     topic <$> results = extract_topics s /\
     path (save_results results "syllabus_content") = "syllabus_content.json").
Proof.
  intros Hq Hperm Htext.
  destruct (enrich_all_ordered w (extract_topics s) Hperm Htext)
    as (out & Hrun & _ & Htopics).
  unfold main, process_syllabus. rewrite (process_all_on_text w s Hq), Hrun.
  split.
  - intros Hnil. rewrite Hnil in Htopics. by destruct out.
  - intros Hne. exists out. destruct out as [|r out]; [by rewrite <- Htopics in Hne|].
    done.
Qed.

Lemma main_saves_or_warns_witness :
  exists results,
    main scenario = Some (Saved (save_results results "syllabus_content")) /\
    topic <$> results = ["Recursion"; "Hash Tables"] /\
    path (save_results results "syllabus_content") = "syllabus_content.json".
Proof.
  refine (proj2 (main_saves_or_warns scenario "Topic: Recursion
Topic: Hash Tables
" _ _ _) _).
  - reflexivity.
  - simpl. apply Permutation_swap.
  - intros [|[|i]] t Hi; try discriminate Hi; eexists; reflexivity.
  - discriminate.
Defined.

(** ** One record per topic, or no result *)






